(** * ViewPersonal: behaviour rules engine, motion smoothing and zone compliance

    A shallow embedding of
      - [services/ai/app/behavior.py]   (per-subject active/idle/away rules),
      - the motion estimation of [services/ai/app/ingest.py],
      - [services/api/app/services/compliance_engine.py] (per-zone compliance),
    together with the properties stated about them.

    Conventions.
      - A Python object mutated in place is threaded explicitly: a function
        that mutates its argument returns the new value next to its result.
      - The [float] timestamps and motion magnitudes of [behavior.py] are
        modelled by the rationals they denote ([Q]); the only float
        operations there are one subtraction, a clamp and comparisons.
        The subtraction is rounded to binary64, to nearest with ties to
        even, by [Binary64.round64]; comparisons are exact. Infinities
        (also as the result of an overflow) and NaN are outside the model.
      - The motion average of [ingest.py] is arithmetic on floats and is
        kept in binary64 ([PrimFloat]).
      - A [datetime] is the integer number of microseconds since the epoch
        ([Z]), its resolution in Python; [total_seconds()] is the number
        of microseconds divided by [10**6] and rounded to binary64, and
        its comparison with an [int] threshold is exact.
      - The policy document and the presence rows are typed records: a
        document that lacks a mandatory key or holds a value of another
        type, which would raise in Python, is not representable. *)

From stdpp Require Import gmap strings list fin_maps sorting.
From Stdlib Require Import ZArith QArith Qround Qpower Lqa Lia.
From Stdlib Require Import PrimFloat FloatOps SpecFloat.

#[local] Set Warnings "-inexact-float".

Local Open Scope Z_scope.

(** ** Binary64 rounding *)

(** Python's [float] is IEEE 754 binary64. A difference of two floats, and
    the quotient of two [int] under [/], is the exact result rounded to the
    nearest binary64 value, ties to the one with an even significand. *)

Module Binary64.

Local Open Scope Q_scope.

(** The binade of a positive rational, [floor (log2 q)]: the difference of
    the bit lengths of numerator and denominator, or one below it. *)
Definition binade (q : Q) : Z :=
  let e := (Z.log2 (Qnum q) - Z.log2 (Zpos (Qden q)))%Z in
  if Qle_bool (2 ^ e) q then e else (e - 1)%Z.

(** Rounding to the nearest integer, ties to the even one. *)
Definition rne (x : Q) : Z :=
  let f := Qfloor x in
  match Qcompare (x - inject_Z f) (1 # 2) with
  | Lt => f
  | Gt => (f + 1)%Z
  | Eq => if Z.even f then f else (f + 1)%Z
  end.

(** The exponent of the unit in the last place of a positive number: 53
    significant bits, and no exponent below [-1074], that of the subnormal
    numbers. *)
Definition ulp_exponent (q : Q) : Z := Z.max (binade q - 52) (-1074).

(** The nearest multiple of [2 ^ u]. *)
Definition round_at (u : Z) (q : Q) : Q := inject_Z (rne (q / 2 ^ u)) * 2 ^ u.

Definition round_pos (q : Q) : Q := round_at (ulp_exponent q) q.

(** The binary64 value nearest to [q], for [q] below the overflow
    threshold. *)
Definition round64 (q : Q) : Q :=
  match Qcompare q 0 with
  | Eq => 0
  | Gt => round_pos q
  | Lt => - round_pos (- q)
  end.

(** The rational denoted by a finite binary64 value of the machine. *)
Definition float_to_Q (f : float) : Q :=
  match Prim2SF f with
  | S754_finite s m e => (if s then -1 else 1) * inject_Z (Zpos m) * 2 ^ e
  | _ => 0
  end.

End Binary64.

(** ** behavior.py *)

Module Behavior.

Local Open Scope Q_scope.

(** The three outputs, ["active"], ["idle"], ["away"]. *)
Inductive Status : Type := active | idle | away.

(** [class BehaviorConfig]: three [int] fields. *)
Record BehaviorConfig : Type := mkBehaviorConfig {
  active_confirm_seconds : Z;
  idle_seconds : Z;
  away_seconds : Z
}.

Definition default_config : BehaviorConfig := mkBehaviorConfig 30 60 120.

(** [class BehaviorSignals]. *)
Record BehaviorSignals : Type := mkBehaviorSignals {
  face_present : bool;
  motion_value : Q;
  motion_threshold : Q
}.

(** [class BehaviorState]: every field is [None] by default. *)
Record BehaviorState : Type := mkBehaviorState {
  last_state : option Status;
  face_present_since : option Q;
  no_face_since : option Q;
  motion_active_since : option Q;
  no_motion_since : option Q
}.

Definition initial_state : BehaviorState :=
  mkBehaviorState None None None None None.

(** Python truthiness of a [float]: only zero is falsy. *)
Definition truthy (x : Q) : bool := negb (Qeq_bool x 0).

(** [a or b] for [a : float | None] and [b : float]: the left operand when
    it is truthy, the right one when it is [None] or zero. *)
Definition or_else (a : option Q) (b : Q) : Q :=
  match a with
  | Some x => if truthy x then x else b
  | None => b
  end.

(** [x >= n] for a float [x] and an [int] field [n]. *)
Definition ge_int (x : Q) (n : Z) : bool := Qle_bool (inject_Z n) x.

(** [_since(now_ts, since_ts)]. The difference [now_ts - since_ts] is a
    float subtraction, rounded to binary64; Python's [max(0.0, d)] keeps
    [0.0] unless [d > 0.0]. *)
Definition _since (now_ts : Q) (since_ts : option Q) : Q :=
  match since_ts with
  | None => 0
  | Some s =>
      let d := Binary64.round64 (now_ts - s) in
      if Qle_bool d 0 then 0 else d
  end.

(** [motion_active = sig.motion_value >= sig.motion_threshold] *)
Definition motion_active (sig : BehaviorSignals) : bool :=
  Qle_bool (motion_threshold sig) (motion_value sig).

(** Lines 53-67: the four trackers after the tick; [last_state] is not
    touched by this part. *)
Definition update_trackers (st : BehaviorState) (sig : BehaviorSignals)
    (now_ts : Q) : BehaviorState :=
  if face_present sig then
    let fps := Some (or_else (face_present_since st) now_ts) in
    if motion_active sig then
      mkBehaviorState (last_state st) fps None
        (Some (or_else (motion_active_since st) now_ts)) None
    else
      mkBehaviorState (last_state st) fps None
        None (Some (or_else (no_motion_since st) now_ts))
  else
    mkBehaviorState (last_state st) None
      (Some (or_else (no_face_since st) now_ts)) None None.

Definition set_last_state (st : BehaviorState) (s : Status) : BehaviorState :=
  mkBehaviorState (Some s) (face_present_since st) (no_face_since st)
    (motion_active_since st) (no_motion_since st).

(** The three elapsed durations of lines 69-71, read from the updated
    trackers. *)
Definition no_face_s (st : BehaviorState) (sig : BehaviorSignals) (now_ts : Q) : Q :=
  _since now_ts (no_face_since (update_trackers st sig now_ts)).
Definition no_motion_s (st : BehaviorState) (sig : BehaviorSignals) (now_ts : Q) : Q :=
  _since now_ts (no_motion_since (update_trackers st sig now_ts)).
Definition motion_active_s (st : BehaviorState) (sig : BehaviorSignals) (now_ts : Q) : Q :=
  _since now_ts (motion_active_since (update_trackers st sig now_ts)).

(** [st.last_state in {"active", "idle"}] *)
Definition is_active_or_idle (s : option Status) : bool :=
  match s with
  | Some active | Some idle => true
  | _ => false
  end.

(** [update_behavior_state]: the returned status and the state object as
    the call leaves it. *)
Definition update_behavior_state (cfg : BehaviorConfig) (st : BehaviorState)
    (sig : BehaviorSignals) (now_ts : Q) : Status * BehaviorState :=
  let st1 := update_trackers st sig now_ts in
  if ge_int (no_face_s st sig now_ts) (away_seconds cfg) then
    (away, set_last_state st1 away)
  else if face_present sig && ge_int (no_motion_s st sig now_ts) (idle_seconds cfg) then
    (idle, set_last_state st1 idle)
  else if face_present sig
          && ge_int (motion_active_s st sig now_ts) (active_confirm_seconds cfg) then
    (active, set_last_state st1 active)
  else if is_active_or_idle (last_state st1) && face_present sig then
    (match last_state st1 with Some s => s | None => away end, st1)
  else if match last_state st1 with Some away => true | _ => false end
          && face_present sig then
    if motion_active sig then (active, set_last_state st1 active)
    else (idle, set_last_state st1 idle)
  else if face_present sig then
    let s := if motion_active sig then active else idle in
    (s, set_last_state st1 s)
  else
    (away, set_last_state st1 away).

(** Running the machine over a stream of ticks, oldest first. *)
Definition run (cfg : BehaviorConfig) (st : BehaviorState)
    (ticks : list (BehaviorSignals * Q)) : list Status * BehaviorState :=
  fold_left
    (fun acc tk =>
       let '(s, st') := update_behavior_state cfg (snd acc) (fst tk) (snd tk) in
       (fst acc ++ [s], st'))
    ticks ([], st).

(** *** Vocabulary of the properties *)

(** The four "since" fields of [BehaviorState]. *)
Inductive Tracker : Type :=
  | FacePresent | NoFace | MotionActive | NoMotion.

Definition tracker_of (k : Tracker) (st : BehaviorState) : option Q :=
  match k with
  | FacePresent => face_present_since st
  | NoFace => no_face_since st
  | MotionActive => motion_active_since st
  | NoMotion => no_motion_since st
  end.

(** The condition a tracker follows on a tick; motion is only judged while
    a face is present (lines 57-62 sit under [if sig.face_present]). *)
Definition condition_of (k : Tracker) (sig : BehaviorSignals) : bool :=
  match k with
  | FacePresent => face_present sig
  | NoFace => negb (face_present sig)
  | MotionActive => face_present sig && motion_active sig
  | NoMotion => face_present sig && negb (motion_active sig)
  end.

(** The tracker of the opposite condition within each pair. *)
Definition opposite (k : Tracker) : Tracker :=
  match k with
  | FacePresent => NoFace
  | NoFace => FacePresent
  | MotionActive => NoMotion
  | NoMotion => MotionActive
  end.

End Behavior.

(** ** ingest.py: motion estimation of a tracked subject *)

Module Ingest.

Local Open Scope float_scope.

(** [class SubjectState]. Its floats are binary64 values, as in Python. *)
Record SubjectState : Type := mkSubjectState {
  last_status : option Behavior.Status;
  last_sent_ts : float;
  last_seen_ts : float;
  last_center : option (float * float);
  motion_ema : float;
  behavior : Behavior.BehaviorState;
  last_pose : option string;
  last_pose_conf : float
}.

(** [SubjectState()] *)
Definition new_subject : SubjectState :=
  mkSubjectState None 0 0 None 0 Behavior.initial_state None 0.

Section Motion.

(** [float.__pow__], which defers to the C library's [pow]; the model
    does not fix its rounding. *)
Variable float_pow : float -> float -> float.

(** [((center[0] - prev[0]) ** 2 + (center[1] - prev[1]) ** 2) ** 0.5] *)
Definition center_distance (center prev : float * float) : float :=
  float_pow
    (float_pow (fst center - fst prev) 2 + float_pow (snd center - snd prev) 2)
    0.5.

(** Lines 360-367 of the ingest loop for the subject [st] of the best
    face, whose bounding-box centre is [center]. *)
Definition observe_position (st : SubjectState) (center : float * float)
    (now_ts : float) : SubjectState :=
  let ema :=
    match last_center st with
    | Some prev => 0.7 * motion_ema st + 0.3 * center_distance center prev
    | None => motion_ema st
    end in
  mkSubjectState (last_status st) (last_sent_ts st) now_ts (Some center) ema
    (behavior st) (last_pose st) (last_pose_conf st).

(** The position samples of one subject, oldest first. *)
Definition track (st : SubjectState) (samples : list ((float * float) * float))
    : SubjectState :=
  fold_left (fun s smp => observe_position s (fst smp) (snd smp)) samples st.

End Motion.

(** A power function for the examples: it squares by a multiplication and
    takes the square root by [sqrt], both correctly rounded. *)
Definition pow_by_sqrt (x y : float) : float :=
  if (y =? 2)%float then x * x else sqrt x.

End Ingest.


(** ** compliance_engine.py *)

Module Compliance.

(** The state strings of the engine. *)
Inductive State : Type :=
  | UNKNOWN | INITIALIZING | COMPLIANT | UNDERSTAFFED | OVERSTAFFED
  | UNAUTHORIZED_PERSON | CRITICAL_VIOLATION.

#[global] Instance State_eq_dec : EqDecision State.
Proof. solve_decision. Defined.

(** [class ZoneState] *)
Record ZoneState : Type := mkZoneState {
  state : State;
  since : Z;
  last_seen : option Z
}.

(** The policy document [compliance_model.yaml] as the engine reads it. *)
Record Role : Type := mkRole {
  role_id : string;
  permissions : list string
}.

Record Zone : Type := mkZone {
  zone_id : string;
  type : option string;
  camera_ids : list string
}.

#[global] Instance Zone_eq_dec : EqDecision Zone.
Proof. solve_decision. Defined.

(** One entry of [required_roles]: the optional keys ["min"] and ["max"]. *)
Record RoleReq : Type := mkRoleReq {
  req_min : option Z;
  req_max : option Z
}.

Record Regulation : Type := mkRegulation {
  zone_type : string;
  regulation_id : option string;
  required_roles : list (string * RoleReq);
  forbidden_roles : list string;
  allowed_absence_seconds : option Z;
  violation_escalation_seconds : gmap string Z;
  severity : option string
}.

Record Model : Type := mkModel {
  roles : list Role;
  zones : list Zone;
  regulations : list Regulation
}.

(** One row of the snapshot returned by [get_current_presence]; the engine
    reads the keys ["source_id"], ["payload"] and ["last_seen_ts"]. *)
Record Presence : Type := mkPresence {
  source_id : option string;
  payload : option (gmap string string);
  last_seen_ts : Z
}.

(** One element of [zones_out]. *)
Record ZoneOut : Type := mkZoneOut {
  out_zone_id : string;
  out_regulation_id : option string;
  out_state : State;
  out_violations : list string;
  out_since : Z;
  out_severity : string
}.

(** [_event_payload]: the event repeats the zone entry and adds the
    evaluation time; ["event_type"] and ["version"] are constants. *)
Record Event : Type := mkEvent {
  event_type : string;
  ev_zone : ZoneOut;
  ts : Z;
  version : string
}.

Definition _event_payload (z : ZoneOut) (now : Z) : Event :=
  mkEvent "compliance.zone" z now "1.0".

(** [_role_from_payload]: the first truthy value among the three keys. *)
Definition _role_from_payload (payload : option (gmap string string)) : option string :=
  match payload with
  | None => None
  | Some m =>
      if decide (m = ∅) then None
      else
        let pick (key : string) : option string :=
          match m !! key with
          | Some v => if decide (v = "") then None else Some v
          | None => None
          end in
        match pick "role" with
        | Some v => Some v
        | None =>
            match pick "staff_role" with
            | Some v => Some v
            | None => pick "entity_role"
            end
        end
  end.

(** [{r["role_id"]: r for r in model.get("roles", [])}] *)
Definition roles_by_id (m : Model) : gmap string Role :=
  foldl (fun acc r => <[role_id r := r]> acc) ∅ (roles m).

(** [{r["zone_type"]: r for r in model.get("regulations", [])}] *)
Definition regulations_by_type (m : Model) : gmap string Regulation :=
  foldl (fun acc r => <[zone_type r := r]> acc) ∅ (regulations m).

(** Lines 73-76: a camera listed by several zones belongs to the last. *)
Definition camera_to_zone (m : Model) : gmap string string :=
  foldl
    (fun acc z => foldl (fun acc' cam => <[cam := zone_id z]> acc') acc (camera_ids z))
    ∅ (zones m).

(** Lines 79-82: the start of the presence window handed to the query. *)
Definition max_absence (m : Model) : Z :=
  map_fold (fun _ r acc => Z.max acc (default 30 (allowed_absence_seconds r)))
    30 (regulations_by_type m).

Definition presence_window_start (m : Model) (now : Z) : Z :=
  now - max_absence m * 4 * 1000000.

(** A role-count dictionary keeps its keys in insertion order. *)
Fixpoint bump (role : string) (counts : list (string * Z)) : list (string * Z) :=
  match counts with
  | [] => [(role, 1)]
  | (r, n) :: rest =>
      if decide (r = role) then (r, n + 1) :: rest else (r, n) :: bump role rest
  end.

Fixpoint count_of (role : string) (counts : list (string * Z)) : Z :=
  match counts with
  | [] => 0
  | (r, n) :: rest => if decide (r = role) then n else count_of role rest
  end.

(** The two dictionaries filled by the loop over the snapshot. *)
Record Tally : Type := mkTally {
  zone_counts : gmap string (list (string * Z));
  zone_last_seen : gmap string (option Z)
}.

Definition empty_tally (m : Model) : Tally :=
  mkTally
    (foldl (fun acc z => <[zone_id z := []]> acc) ∅ (zones m))
    (foldl (fun acc z => <[zone_id z := None]> acc) ∅ (zones m)).

(** The body of [for p in presence] (lines 91-97). *)
Definition tally_step (c2z : gmap string string) (t : Tally) (p : Presence) : Tally :=
  let source := default "" (source_id p) in
  match c2z !! source with
  | None => t
  | Some zid =>
      if decide (zid = "") then t
      else
        let role :=
          default "unknown" (_role_from_payload (Some (default ∅ (payload p)))) in
        mkTally
          (<[zid := bump role (default [] (zone_counts t !! zid))]> (zone_counts t))
          (<[zid := Some (last_seen_ts p)]> (zone_last_seen t))
  end.

Definition tally (m : Model) (presence : list Presence) : Tally :=
  foldl (tally_step (camera_to_zone m)) (empty_tally m) presence.

(** [zone_last_seen.get(zone_id)] *)
Definition last_seen_of (t : Tally) (zid : string) : option Z :=
  default None (zone_last_seen t !! zid).

(** Lines 175-185 for one role present in the zone. *)
Definition role_violations (rs : gmap string Role) (forbidden : list string)
    (ztype : option string) (rid : string) : list string :=
  (if decide (rid ∈ forbidden) then ["forbidden:" +:+ rid] else [])
  ++
  match rs !! rid with
  | Some r =>
      let permitted :=
        match ztype with
        | Some t => bool_decide (t ∈ permissions r)
        | None => false
        end in
      if permitted then [] else ["unauthorized:" +:+ rid]
  | None =>
      if decide (rid ≠ "unknown") then ["unauthorized:" +:+ rid]
      else if decide (rid = "unknown") then ["unauthorized:unknown"]
      else []
  end.

(** Lines 188-197 for one required role; the accumulator is the list of
    violations and [computed_state]. *)
Definition required_step (counts : list (string * Z)) (acc : list string * State)
    (rc : string * RoleReq) : list string * State :=
  let cnt := count_of (fst rc) counts in
  let min_req := default 0 (req_min (snd rc)) in
  let max_req := default 999 (req_max (snd rc)) in
  let acc1 :=
    if cnt <? min_req then (fst acc ++ ["missing:" +:+ fst rc], UNDERSTAFFED) else acc in
  if max_req <? cnt then (fst acc1 ++ ["over:" +:+ fst rc], OVERSTAFFED) else acc1.

(** Lines 199-200 *)
Definition is_unauthorized (v : string) : bool :=
  String.prefix "forbidden" v || String.prefix "unauthorized" v.

(** Lines 139-203: the violations and the state computed from the presence
    in the zone, before hysteresis and escalation. *)
Definition compute_state (rs : gmap string Role) (reg : Regulation)
    (ztype : option string) (counts : list (string * Z)) : list string * State :=
  let v0 := flat_map (role_violations rs (forbidden_roles reg) ztype) (map fst counts) in
  let '(violations, st) := foldl (required_step counts) (v0, COMPLIANT) (required_roles reg) in
  let st := if existsb is_unauthorized violations then UNAUTHORIZED_PERSON else st in
  let st := match violations with [] => COMPLIANT | _ => st end in
  (violations, st).

(** Line 206 *)
Definition hysteresis_since (prev : option ZoneState) (computed : State) (now : Z) : Z :=
  match prev with
  | Some p => if decide (state p = computed) then since p else now
  | None => now
  end.

(** [timedelta.total_seconds()] of a difference of [microseconds]: the
    true division of two [int], [microseconds / 10**6], whose result is the
    float nearest to the quotient. *)
Definition total_seconds (microseconds : Z) : Q :=
  Binary64.round64 (microseconds # 1000000).

(** [(now - state_since).total_seconds() > threshold]: Python compares the
    float with the [int] exactly. *)
Definition elapsed_exceeds (now state_since threshold : Z) : bool :=
  negb (Qle_bool (total_seconds (now - state_since)) (inject_Z threshold)).

(** Lines 209-216 *)
Definition escalate (escalation : gmap string Z) (computed : State)
    (now state_since : Z) : State :=
  let s1 :=
    if decide (computed = UNDERSTAFFED ∨ computed = OVERSTAFFED) then
      if elapsed_exceeds now state_since (default 120 (escalation !! "understaffed"))
      then CRITICAL_VIOLATION else computed
    else computed in
  if decide (s1 = UNAUTHORIZED_PERSON) then
    if elapsed_exceeds now state_since (default 60 (escalation !! "unauthorized"))
    then CRITICAL_VIOLATION else s1
  else s1.

(** The body of [for z in zones] (lines 103-240): the zone entry, and the
    cache as the iteration leaves it. *)
Definition eval_zone (rs : gmap string Role) (regs : gmap string Regulation)
    (t : Tally) (now : Z) (cache : gmap string ZoneState) (z : Zone)
    : ZoneOut * gmap string ZoneState :=
  let zid := zone_id z in
  match type z ≫= (regs !!.) with
  | None =>
      (mkZoneOut zid None UNKNOWN ["no_regulation"] now "info", cache)
  | Some reg =>
      let rid := regulation_id reg in
      match last_seen_of t zid with
      | None =>
          let prev := cache !! zid in
          let computed := match prev with None => INITIALIZING | Some _ => UNKNOWN end in
          let state_since := match prev with Some p => since p | None => now end in
          (mkZoneOut zid rid computed [] state_since "info",
           <[zid := mkZoneState computed state_since None]> cache)
      | Some seen =>
          let counts := default [] (zone_counts t !! zid) in
          let '(violations, computed) := compute_state rs reg (type z) counts in
          let state_since := hysteresis_since (cache !! zid) computed now in
          let final := escalate (violation_escalation_seconds reg) computed now state_since in
          (mkZoneOut zid rid final violations state_since (default "high" (severity reg)),
           <[zid := mkZoneState final state_since (Some seen)]> cache)
      end
  end.

(** One iteration of the loop: the entry is appended to [zones_out], the
    cache is the one the iteration leaves. *)
Definition eval_step (rs : gmap string Role) (regs : gmap string Regulation)
    (t : Tally) (now : Z) (acc : list ZoneOut * gmap string ZoneState) (z : Zone)
    : list ZoneOut * gmap string ZoneState :=
  let '(o, c) := eval_zone rs regs t now (snd acc) z in
  (fst acc ++ [o], c).

(** [evaluate_zone_compliance], given the snapshot the presence query
    returned and the module-level [_STATE_CACHE]: the ["zones"] list, the
    ["events"] list and the cache afterwards. *)
Definition evaluate_zone_compliance (m : Model) (presence : list Presence)
    (now : Z) (cache : gmap string ZoneState)
    : list ZoneOut * list Event * gmap string ZoneState :=
  let '(outs, cache') :=
    foldl (eval_step (roles_by_id m) (regulations_by_type m) (tally m presence) now)
      ([], cache) (zones m) in
  (outs, map (fun o => _event_payload o now) outs, cache').

Definition zones_of (r : list ZoneOut * list Event * gmap string ZoneState)
    : list ZoneOut := fst (fst r).
Definition events_of (r : list ZoneOut * list Event * gmap string ZoneState)
    : list Event := snd (fst r).
Definition cache_of (r : list ZoneOut * list Event * gmap string ZoneState)
    : gmap string ZoneState := snd r.

(** The entry of a zone in the ["zones"] list. *)
Definition zone_entry (outs : list ZoneOut) (zid : string) : option ZoneOut :=
  find (fun o => bool_decide (out_zone_id o = zid)) outs.

(** *** Vocabulary of the properties *)

(** [regulations.get(z.get("type"))] *)
Definition regulation_of (m : Model) (z : Zone) : option Regulation :=
  type z ≫= (regulations_by_type m !!.).

(** Whether the snapshot left a last-seen time for the zone (the test of
    line 143 fails). *)
Definition recent_presence (m : Model) (presence : list Presence) (z : Zone) : bool :=
  bool_decide (is_Some (last_seen_of (tally m presence) (zone_id z))).

(** [computed_state] as it stands at line 205, before hysteresis and
    escalation. *)
Definition pre_escalation_state (m : Model) (presence : list Presence)
    (z : Zone) (reg : Regulation) : State :=
  snd (compute_state (roles_by_id m) reg (type z)
         (default [] (zone_counts (tally m presence) !! zone_id z))).

(** The threshold read at line 210. *)
Definition understaffed_threshold (reg : Regulation) : Z :=
  default 120 (violation_escalation_seconds reg !! "understaffed").

(** The threshold read at line 214. *)
Definition unauthorized_threshold (reg : Regulation) : Z :=
  default 60 (violation_escalation_seconds reg !! "unauthorized").

(** A whole number of seconds as a [datetime] difference. *)
Definition seconds (n : Z) : Z := n * 1000000.

(** The snapshot records whose source maps to the zone. *)
Definition maps_to (m : Model) (zid : string) (p : Presence) : bool :=
  bool_decide (camera_to_zone m !! default "" (source_id p) = Some zid ∧ zid ≠ "").

(** The per-zone last-seen time as the specification words it: the most
    recent [last_seen_ts] among the records of the zone. *)
Definition most_recent_last_seen (m : Model) (presence : list Presence)
    (zid : string) : option Z :=
  foldr
    (fun p acc =>
       match acc with
       | Some t => Some (Z.max (last_seen_ts p) t)
       | None => Some (last_seen_ts p)
       end)
    None (filter (fun p => maps_to m zid p = true) presence).

(** *** The statements of the specification, word for word *)

(** Compliance hysteresis as the specification states it, for the entries
    [o1] and [o2] of a zone on two consecutive evaluations: an unchanged
    state keeps [since], a changed state resets it to the second
    evaluation time. *)
Definition hysteresis_as_stated (m : Model) (p1 p2 : list Presence)
    (now1 now2 : Z) (cache : gmap string ZoneState) (z : Zone) : Prop :=
  let r1 := evaluate_zone_compliance m p1 now1 cache in
  let r2 := evaluate_zone_compliance m p2 now2 (cache_of r1) in
  forall o1 o2,
    zone_entry (zones_of r1) (zone_id z) = Some o1 ->
    zone_entry (zones_of r2) (zone_id z) = Some o2 ->
    (out_state o2 = out_state o1 -> out_since o2 = out_since o1) /\
    (out_state o2 <> out_state o1 -> out_since o2 = now2).

(** The escalation boundary as the specification states it: a zone that is
    [UNDERSTAFFED] since exactly the threshold is emitted as
    [CRITICAL_VIOLATION]. *)
Definition escalation_inclusive_as_stated (m : Model) (presence : list Presence)
    (now : Z) (cache : gmap string ZoneState) (z : Zone) : Prop :=
  forall reg s ls,
    regulation_of m z = Some reg ->
    recent_presence m presence z = true ->
    pre_escalation_state m presence z reg = UNDERSTAFFED ->
    cache !! zone_id z = Some (mkZoneState UNDERSTAFFED s ls) ->
    now - s = seconds (understaffed_threshold reg) ->
    exists o,
      zone_entry (zones_of (evaluate_zone_compliance m presence now cache)) (zone_id z)
        = Some o /\
      out_state o = CRITICAL_VIOLATION.

(** The no-regulation degradation as the specification states it: the
    state tells whether the zone was evaluated before, the violations list
    is empty. *)
Definition no_regulation_as_stated (m : Model) (presence : list Presence)
    (now : Z) (cache : gmap string ZoneState) (z : Zone) : Prop :=
  regulation_of m z = None ->
  exists o,
    zone_entry (zones_of (evaluate_zone_compliance m presence now cache)) (zone_id z)
      = Some o /\
    out_state o = match cache !! zone_id z with
                  | None => INITIALIZING
                  | Some _ => UNKNOWN
                  end /\
    out_severity o = "info" /\
    out_violations o = [].

(** "A critical state never persists" as the specification states it: when
    one evaluation emits [CRITICAL_VIOLATION] for a zone and the next one
    computes the same violation state from unchanged presence, the next
    evaluation emits that state, not the critical one, with [since] reset
    to its own evaluation time. *)
Definition critical_never_persists_as_stated (m : Model) (p1 p2 : list Presence)
    (now1 now2 : Z) (cache : gmap string ZoneState) (z : Zone) : Prop :=
  let r1 := evaluate_zone_compliance m p1 now1 cache in
  let r2 := evaluate_zone_compliance m p2 now2 (cache_of r1) in
  forall reg o1,
    regulation_of m z = Some reg ->
    zone_entry (zones_of r1) (zone_id z) = Some o1 ->
    out_state o1 = CRITICAL_VIOLATION ->
    recent_presence m p2 z = true ->
    pre_escalation_state m p2 z reg = pre_escalation_state m p1 z reg ->
    exists o2,
      zone_entry (zones_of r2) (zone_id z) = Some o2 /\
      out_state o2 = pre_escalation_state m p2 z reg /\
      out_since o2 = now2.

(** *** A small policy used in the examples *)

Definition demo_regulation : Regulation :=
  mkRegulation "restricted" (Some "REG-1")
    [("guard", mkRoleReq (Some 1) (Some 2))] ["visitor"] (Some 30) ∅ (Some "high").

Definition demo_model : Model :=
  mkModel
    [mkRole "guard" ["restricted"]; mkRole "janitor" ["restricted"];
     mkRole "visitor" ["lobby"]]
    [mkZone "vault" (Some "restricted") ["cam1"];
     mkZone "yard" (Some "outdoor") ["cam2"]]
    [demo_regulation].

Definition vault : Zone := mkZone "vault" (Some "restricted") ["cam1"].
Definition yard : Zone := mkZone "yard" (Some "outdoor") ["cam2"].

(** A presence row of a subject with a role in its payload. *)
Definition seen (role cam : string) (at_ts : Z) : Presence :=
  mkPresence (Some cam) (Some {["role" := role]}) at_ts.

(** A row as [get_current_presence] builds it, without the key
    ["payload"]: line 95 counts its subject under the role ["unknown"]. *)
Definition sighting (cam : string) (at_ts : Z) : Presence :=
  mkPresence (Some cam) None at_ts.

(** A policy for such rows: it declares the role ["unknown"] and admits it
    to restricted zones, which still require a guard. *)
Definition anonymous_regulation : Regulation :=
  mkRegulation "restricted" (Some "REG-1")
    [("guard", mkRoleReq (Some 1) (Some 2))] [] (Some 30) ∅ (Some "high").

Definition anonymous_model : Model :=
  mkModel
    [mkRole "guard" ["restricted"]; mkRole "unknown" ["restricted"]]
    [vault; yard]
    [anonymous_regulation].

(** A policy that does not declare the role ["unknown"] and whose
    ["unauthorized"] escalation threshold is below zero. *)
Definition hasty_regulation : Regulation :=
  mkRegulation "restricted" (Some "REG-1")
    [("guard", mkRoleReq (Some 1) (Some 2))] [] (Some 30)
    {[ "unauthorized" := -1 ]} (Some "high").

Definition hasty_model : Model :=
  mkModel [mkRole "guard" ["restricted"]] [vault; yard] [hasty_regulation].

End Compliance.


(** ** ingest.py: the away sweep and the status report of the frame loop *)

Module IngestLoop.

Import Ingest.
Local Open Scope float_scope.

(** [x or 0.0] for a float: zero of either sign is falsy. *)
Definition or_zero (x : float) : float :=
  if PrimFloat.eqb x 0 then 0 else x.

(** [st.last_status != "away"] *)
Definition not_away (s : option Behavior.Status) : bool :=
  match s with
  | Some Behavior.away => false
  | _ => true
  end.

(** [st.last_status != status] *)
Definition status_differs (s : option Behavior.Status) (status : Behavior.Status) : bool :=
  match s, status with
  | Some Behavior.active, Behavior.active
  | Some Behavior.idle, Behavior.idle
  | Some Behavior.away, Behavior.away => false
  | _, _ => true
  end.

(** The two calls of lines 341-342. Of the payloads, the fields that vary
    are kept: the presence event carries the time, the two subject
    identifiers and the source (its event is ["away"], its confidence 0.0,
    its reason ["left_frame"]); the observation carries the time, the
    source and the motion threshold (its employee is [None], its label
    ["away"], everything else zero or ["unknown"]). *)
Inductive Push : Type :=
  | PresencePush (ts : string) (employee_id anonymous_track_id : option string)
      (source_id : string)
  | ObservationPush (ts : string) (source_id : string) (motion_threshold : float).

Section Loop.

(** [float(settings.away_seconds)], [float(settings.motion_active_threshold)]
    and [self._source_id]. *)
Variables (away_seconds motion_threshold : float) (source_id : string).

(** The two conditions of lines 317-318. *)
Definition away_due (now_ts : float) (st : SubjectState) : bool :=
  PrimFloat.leb away_seconds (now_ts - or_zero (last_seen_ts st))
  && (not_away (last_status st) && PrimFloat.leb 1 (now_ts - last_sent_ts st)).

(** Lines 319-320 *)
Definition mark_away (now_ts : float) (st : SubjectState) : SubjectState :=
  mkSubjectState (Some Behavior.away) now_ts (last_seen_ts st) (last_center st)
    (motion_ema st) (behavior st) (last_pose st) (last_pose_conf st).

(** Lines 321-342 *)
Definition away_pushes (now_iso subject : string) : list Push :=
  let anon := String.prefix "anon" subject in
  [PresencePush now_iso (if anon then None else Some subject)
     (if anon then Some subject else None) source_id;
   ObservationPush now_iso source_id motion_threshold].

(** The sweep of a frame without faces (lines 316-343) over the subject
    dictionary, in insertion order: the dictionary afterwards and the
    pushes made. *)
Fixpoint away_sweep (now_ts : float) (now_iso : string)
    (subjects : list (string * SubjectState))
    : list (string * SubjectState) * list Push :=
  match subjects with
  | [] => ([], [])
  | (subject, st) :: rest =>
      let '(rest', pushes) := away_sweep now_ts now_iso rest in
      if away_due now_ts st
      then ((subject, mark_away now_ts st) :: rest', away_pushes now_iso subject ++ pushes)
      else ((subject, st) :: rest', pushes)
  end.

(** What the sweep does to one entry of the dictionary. *)
Definition swept_entry (now_ts : float) (e : string * SubjectState)
    : string * SubjectState :=
  if away_due now_ts (snd e) then (fst e, mark_away now_ts (snd e)) else e.

(** The subjects a sweep pushes for. *)
Definition swept_subjects (now_ts : float) (subjects : list (string * SubjectState))
    : list string :=
  map fst (filter (fun e => away_due now_ts (snd e) = true) subjects).

End Loop.

(** Lines 424-433 for a subject seen in the frame: whether its status is
    pushed, and the subject afterwards. [heartbeat] is
    [settings.presence_heartbeat_seconds]. *)
Definition report_status (heartbeat : float) (st : SubjectState)
    (status : Behavior.Status) (now_ts : float) : SubjectState * bool :=
  let should_send :=
    if status_differs (last_status st) status then true
    else PrimFloat.leb heartbeat (now_ts - last_sent_ts st) in
  if should_send then
    (mkSubjectState (Some status) now_ts (last_seen_ts st) (last_center st)
       (motion_ema st) (behavior st) (last_pose st) (last_pose_conf st), true)
  else (st, false).

End IngestLoop.


(** ** presence_state.py *)

Module PresenceState.

(** The columns of [PresenceEvent] that [get_current_presence] reads; a
    UUID is written as its string. *)
Record PresenceEvent : Type := mkPresenceEvent {
  ts : Z;
  privacy_mode : string;
  employee_id : option string;
  anonymous_track_id : option string;
  source_id : option string;
  event : string;
  confidence : option float
}.

(** One dictionary of the returned list. *)
Record Row : Type := mkRow {
  subject : string;
  last_seen_ts : Z;
  row_source_id : option string;
  row_event : string;
  row_confidence : option float;
  row_privacy_mode : string
}.

(** Line 22: the employee when there is one, else the anonymous track,
    else ["unknown"]; an empty track name is falsy. *)
Definition subject_of (e : PresenceEvent) : string :=
  match employee_id e with
  | Some id => id
  | None =>
      match anonymous_track_id e with
      | Some track => if decide (track = "") then "unknown" else track
      | None => "unknown"
      end
  end.

(** Lines 20-24: the first event of every subject, in order of first
    appearance. *)
Definition latest_step (acc : list (string * PresenceEvent)) (e : PresenceEvent)
    : list (string * PresenceEvent) :=
  if decide (subject_of e ∈ acc.*1) then acc else acc ++ [(subject_of e, e)].

Definition latest_by_subject (events : list PresenceEvent)
    : list (string * PresenceEvent) :=
  foldl latest_step [] events.

(** Lines 28-37 *)
Definition to_row (entry : string * PresenceEvent) : Row :=
  mkRow (fst entry) (ts (snd entry)) (source_id (snd entry)) (event (snd entry))
    (confidence (snd entry)) (privacy_mode (snd entry)).

(** [sorted(out, key=lambda x: x["last_seen_ts"], reverse=True)]: Python's
    sort is stable, also in reverse, so a row goes before the first row
    that is not more recent than it. *)
Fixpoint insert_desc (r : Row) (rows : list Row) : list Row :=
  match rows with
  | [] => [r]
  | x :: rest =>
      if (last_seen_ts r <? last_seen_ts x)%Z then x :: insert_desc r rest
      else r :: x :: rest
  end.

Definition sorted_desc (rows : list Row) : list Row := foldr insert_desc [] rows.

(** [get_current_presence], given the rows [db.scalars(stmt).all()]
    returned for the statement of lines 13-16. *)
Definition get_current_presence (events : list PresenceEvent) : list Row :=
  sorted_desc (map to_row (latest_by_subject events)).

(** The order of the returned rows: a row is not older than the rows after
    it. *)
Definition newer_or_equal (a b : Row) : Prop := (last_seen_ts b <= last_seen_ts a)%Z.

(** What [ORDER BY ts DESC] guarantees of the query result. *)
Definition newest_first (events : list PresenceEvent) : Prop :=
  StronglySorted (fun a b => (ts b <= ts a)%Z) events.

(** The keys of a row that [evaluate_zone_compliance] reads with [p.get]:
    there is no ["payload"] key. *)
Definition as_presence (r : Row) : Compliance.Presence :=
  Compliance.mkPresence (row_source_id r) None (last_seen_ts r).

End PresenceState.


(** ** main.py: the callers of the compliance engine *)

Module Api.

Import Compliance.

(** [compliance_zone_detail] after the role check: [None] stands for the
    404 response, otherwise the zone that is broadcast and returned. *)
Definition compliance_zone_detail (outs : list ZoneOut) (zid : string)
    : option ZoneOut :=
  match filter (fun z => out_zone_id z = zid) outs with
  | [] => None
  | zone :: _ => Some zone
  end.

(** [chat_respond]: the zones counted as violations. *)
Definition violating (z : ZoneOut) : bool :=
  match out_state z with
  | COMPLIANT | UNKNOWN | INITIALIZING => false
  | _ => true
  end.

Definition chat_violations (outs : list ZoneOut) : list ZoneOut :=
  filter (fun z => violating z = true) outs.

(** Whether the snapshot alone makes a zone a violation: it has a
    regulation, recent presence and a computed state other than
    [COMPLIANT]. *)
Definition zone_violating (m : Model) (presence : list Presence) (z : Zone) : bool :=
  match regulation_of m z with
  | Some reg =>
      recent_presence m presence z
      && bool_decide (pre_escalation_state m presence z reg <> COMPLIANT)
  | None => false
  end.

End Api.


(** ** Vocabulary for further properties of the compliance engine *)

Module ComplianceTerms.

Import Compliance.

(** The role line 95 gives a snapshot record. *)
Definition role_of (p : Presence) : string :=
  default "unknown" (_role_from_payload (Some (default ∅ (payload p)))).

(** Whether the source of a record is a camera of some zone (the test of
    line 93 passes). *)
Definition mapped (m : Model) (p : Presence) : bool :=
  match camera_to_zone m !! default "" (source_id p) with
  | Some zid => bool_decide (zid <> "")
  | None => false
  end.

(** [evaluate_zone_compliance] on the rows of [get_current_presence], as
    line 84 obtains them. *)
Definition evaluate_on_events (m : Model) (events : list PresenceState.PresenceEvent)
    (now : Z) (cache : gmap string ZoneState)
    : list ZoneOut * list Event * gmap string ZoneState :=
  evaluate_zone_compliance m
    (PresenceState.as_presence <$> PresenceState.get_current_presence events)
    now cache.

End ComplianceTerms.


(** * Properties of the binary64 rounding *)

Module Binary64Facts.

Import Binary64.
Local Open Scope Q_scope.

(** *** Powers of two *)

Lemma pow2_pos e : 0 < 2 ^ e.
Proof. apply Qpower_0_lt. reflexivity. Qed.

Lemma pow2_add a b : 2 ^ (a + b) == 2 ^ a * 2 ^ b.
Proof. apply Qpower_plus. discriminate. Qed.

Lemma pow2_le a b : (a <= b)%Z -> 2 ^ a <= 2 ^ b.
Proof. intros H. apply Qpower_le_compat_l; [exact H|discriminate]. Qed.

Lemma pow2_lt a b : (a < b)%Z -> 2 ^ a < 2 ^ b.
Proof. intros H. apply Qpower_lt_compat_l; [exact H|reflexivity]. Qed.

Lemma pow2_lt_inv a b : 2 ^ a < 2 ^ b -> (a < b)%Z.
Proof. intros H. eapply Qpower_lt_compat_l_inv; [exact H|reflexivity]. Qed.

Lemma pow2_Z n : (0 <= n)%Z -> inject_Z (2 ^ n) == 2 ^ n.
Proof. intros H. apply (Zpower_Qpower 2 n H). Qed.

Lemma pow2_succ a : 2 ^ (a + 1) == 2 * 2 ^ a.
Proof. rewrite pow2_add. change (2 ^ 1) with 2. ring. Qed.

(** A power of two is a multiple of every smaller one. *)
Lemma pow2_grid a u : (u <= a)%Z -> 2 ^ a == inject_Z (2 ^ (a - u)) * 2 ^ u.
Proof.
  intros H. rewrite pow2_Z by lia. rewrite <- pow2_add.
  replace (a - u + u)%Z with a by lia. reflexivity.
Qed.

(** *** The binade *)

Lemma binade_spec q : 0 < q -> 2 ^ binade q <= q /\ q < 2 ^ (binade q + 1).
Proof.
  intros Hq. destruct q as [a b].
  assert (Ha : (0 < a)%Z). { unfold Qlt in Hq. cbn in Hq. lia. }
  unfold binade. cbn [Qnum Qden].
  pose proof (Z.log2_spec a Ha) as [Ha1 Ha2].
  pose proof (Z.log2_spec (Zpos b) eq_refl) as [Hb1 Hb2].
  pose proof (Z.log2_nonneg a) as Hla.
  pose proof (Z.log2_nonneg (Zpos b)) as Hlb.
  set (la := Z.log2 a) in *. set (lb := Z.log2 (Zpos b)) in *.
  assert (HA1 : 2 ^ la <= inject_Z a).
  { rewrite <- pow2_Z by exact Hla. rewrite <- Zle_Qle. exact Ha1. }
  assert (HA2 : inject_Z a < 2 * 2 ^ la).
  { rewrite <- pow2_succ, <- pow2_Z by lia. rewrite <- Zlt_Qlt. exact Ha2. }
  assert (HB1 : 2 ^ lb <= inject_Z (Zpos b)).
  { rewrite <- pow2_Z by exact Hlb. rewrite <- Zle_Qle. exact Hb1. }
  assert (HB2 : inject_Z (Zpos b) < 2 * 2 ^ lb).
  { rewrite <- pow2_succ, <- pow2_Z by lia. rewrite <- Zlt_Qlt. exact Hb2. }
  assert (HB0 : 0 < inject_Z (Zpos b)) by reflexivity.
  assert (Hup : a # b < 2 ^ (la - lb + 1)).
  { rewrite (Qmake_Qdiv a b). apply Qlt_shift_div_r; [exact HB0|].
    eapply Qlt_le_trans; [exact HA2|].
    assert (2 * 2 ^ la == 2 ^ (la - lb + 1) * 2 ^ lb) as ->.
    { rewrite <- pow2_add, <- pow2_succ. replace (la - lb + 1 + lb)%Z with (la + 1)%Z by lia.
      reflexivity. }
    apply Qmult_le_l; [apply pow2_pos|exact HB1]. }
  assert (Hlow : 2 ^ (la - lb - 1) <= a # b).
  { rewrite (Qmake_Qdiv a b). apply Qle_shift_div_l; [exact HB0|].
    eapply Qle_trans; [|exact HA1].
    assert (2 ^ la == 2 ^ (la - lb - 1) * (2 * 2 ^ lb)) as ->.
    { rewrite <- pow2_succ, <- pow2_add. replace (la - lb - 1 + (lb + 1))%Z with la by lia.
      reflexivity. }
    apply Qmult_le_l; [apply pow2_pos|]. apply Qlt_le_weak. exact HB2. }
  destruct (Qle_bool (2 ^ (la - lb)) (a # b)) eqn:E.
  - apply Qle_bool_iff in E. split; [exact E|exact Hup].
  - split; [exact Hlow|].
    replace (la - lb - 1 + 1)%Z with (la - lb)%Z by lia.
    apply Qnot_le_lt. intros Hle. apply Qle_bool_iff in Hle. congruence.
Qed.

Lemma binade_unique q e : 2 ^ e <= q -> q < 2 ^ (e + 1) -> binade q = e.
Proof.
  intros H1 H2.
  assert (Hq : 0 < q) by (eapply Qlt_le_trans; [apply (pow2_pos e)|exact H1]).
  destruct (binade_spec q Hq) as [H3 H4].
  assert (binade q < e + 1)%Z.
  { apply pow2_lt_inv. eapply Qle_lt_trans; [exact H3|exact H2]. }
  assert (e < binade q + 1)%Z.
  { apply pow2_lt_inv. eapply Qle_lt_trans; [exact H1|exact H4]. }
  lia.
Qed.

Lemma binade_mono p q : 0 < p -> p <= q -> (binade p <= binade q)%Z.
Proof.
  intros Hp Hpq.
  assert (Hq : 0 < q) by (eapply Qlt_le_trans; eauto).
  destruct (binade_spec p Hp) as [H1 _]. destruct (binade_spec q Hq) as [_ H2].
  assert (binade p < binade q + 1)%Z; [|lia].
  apply pow2_lt_inv. eapply Qle_lt_trans; [exact H1|].
  eapply Qle_lt_trans; [exact Hpq|exact H2].
Qed.

(** *** Rounding to the nearest integer *)

Lemma rne_bounds x : (Qfloor x <= rne x <= Qfloor x + 1)%Z.
Proof.
  unfold rne. destruct (Qcompare _ _); [destruct (Z.even _)| |]; lia.
Qed.

Lemma rne_Z x n : x == inject_Z n -> rne x = n.
Proof.
  intros H. unfold rne.
  assert (Qfloor x = n) as -> by (rewrite H; apply Qfloor_Z).
  destruct (Qcompare_spec (x - inject_Z n) (1 # 2)) as [Hc|Hc|Hc];
    [exfalso; lra|reflexivity|exfalso; lra].
Qed.

Lemma rne_mono x y : x <= y -> (rne x <= rne y)%Z.
Proof.
  intros Hxy.
  pose proof (Qfloor_resp_le x y Hxy) as Hf.
  destruct (Z.eq_dec (Qfloor x) (Qfloor y)) as [Heq|Hne].
  - unfold rne. rewrite <- Heq.
    destruct (Qcompare_spec (x - inject_Z (Qfloor x)) (1 # 2)) as [Hx|Hx|Hx];
      destruct (Qcompare_spec (y - inject_Z (Qfloor x)) (1 # 2)) as [Hy|Hy|Hy];
      try destruct (Z.even (Qfloor x)); try lia; exfalso; lra.
  - pose proof (rne_bounds x). pose proof (rne_bounds y). lia.
Qed.

(** *** Rounding to a multiple of a power of two *)

Lemma round_at_mono u p q : p <= q -> round_at u p <= round_at u q.
Proof.
  intros H. unfold round_at. apply Qmult_le_r; [apply pow2_pos|].
  rewrite <- Zle_Qle. apply rne_mono.
  apply Qmult_le_r; [apply Qinv_lt_0_compat, pow2_pos|exact H].
Qed.

Lemma round_at_grid u m : round_at u (inject_Z m * 2 ^ u) == inject_Z m * 2 ^ u.
Proof.
  unfold round_at. rewrite (rne_Z _ m); [reflexivity|].
  field. intros H. pose proof (pow2_pos u) as Hp. rewrite H in Hp. discriminate Hp.
Qed.

Lemma round_at_le u q m : q <= inject_Z m * 2 ^ u -> round_at u q <= inject_Z m * 2 ^ u.
Proof. intros H. rewrite <- (round_at_grid u m). by apply round_at_mono. Qed.

Lemma round_at_ge u q m : inject_Z m * 2 ^ u <= q -> inject_Z m * 2 ^ u <= round_at u q.
Proof. intros H. rewrite <- (round_at_grid u m). by apply round_at_mono. Qed.

Lemma round_at_exact u q m : q == inject_Z m * 2 ^ u -> round_at u q == q.
Proof.
  intros H. apply Qle_antisym.
  - rewrite H at 2. apply round_at_le. rewrite H. apply Qle_refl.
  - rewrite H at 1. apply round_at_ge. rewrite H. apply Qle_refl.
Qed.

(** *** Rounding a positive number *)

Lemma round_pos_nonneg q : 0 <= q -> 0 <= round_pos q.
Proof.
  intros H. unfold round_pos.
  assert (0 == inject_Z 0 * 2 ^ ulp_exponent q) as Hz by ring.
  rewrite Hz at 1. apply round_at_ge. rewrite <- Hz. exact H.
Qed.

Lemma round_pos_mono p q : 0 < p -> p <= q -> round_pos p <= round_pos q.
Proof.
  intros Hp Hpq.
  assert (Hq : 0 < q) by (eapply Qlt_le_trans; eauto).
  pose proof (binade_mono p q Hp Hpq) as He.
  unfold round_pos, ulp_exponent.
  destruct (Z.eq_dec (Z.max (binade p - 52) (-1074)) (Z.max (binade q - 52) (-1074)))
    as [Heq|Hne].
  - rewrite Heq. by apply round_at_mono.
  - set (up := Z.max (binade p - 52) (-1074)) in *.
    set (uq := Z.max (binade q - 52) (-1074)) in *.
    assert (Huq : uq = (binade q - 52)%Z) by lia.
    assert (Hep : (binade p + 1 <= binade q)%Z) by lia.
    destruct (binade_spec p Hp) as [_ Hp2]. destruct (binade_spec q Hq) as [Hq1 _].
    apply Qle_trans with (2 ^ binade q).
    + rewrite (pow2_grid (binade q) up) by lia.
      apply round_at_le. rewrite <- pow2_grid by lia.
      apply Qlt_le_weak. eapply Qlt_le_trans; [exact Hp2|]. by apply pow2_le.
    + rewrite (pow2_grid (binade q) uq) by lia.
      apply round_at_ge. rewrite <- pow2_grid by lia. exact Hq1.
Qed.

Lemma round_pos_comp p q : 0 < p -> p == q -> round_pos p == round_pos q.
Proof.
  intros Hp Hpq.
  assert (Hq : 0 < q) by (rewrite <- Hpq; exact Hp).
  apply Qle_antisym; apply round_pos_mono; try assumption; rewrite Hpq; apply Qle_refl.
Qed.

(** A positive integer of at most 53 bits is a binary64 value. *)
Lemma round_pos_Z n : (0 < n <= 2 ^ 53)%Z -> round_pos (inject_Z n) == inject_Z n.
Proof.
  intros [Hn0 Hn].
  pose proof (Z.log2_spec n Hn0) as [Hl1 Hl2].
  pose proof (Z.log2_nonneg n) as Hl0.
  assert (He : binade (inject_Z n) = Z.log2 n).
  { apply binade_unique.
    - rewrite <- pow2_Z by exact Hl0. rewrite <- Zle_Qle. exact Hl1.
    - rewrite <- pow2_Z by lia. rewrite <- Zlt_Qlt.
      replace (Z.log2 n + 1)%Z with (Z.succ (Z.log2 n)) by lia. exact Hl2. }
  unfold round_pos, ulp_exponent. rewrite He.
  destruct (Z.eq_dec n (2 ^ 53)) as [->|Hne].
  - vm_compute. reflexivity.
  - assert (Z.log2 n < 53)%Z as Hlt by (apply Z.log2_lt_pow2; lia).
    replace (Z.max (Z.log2 n - 52) (-1074)) with (Z.log2 n - 52)%Z by lia.
    apply (round_at_exact _ _ (n * 2 ^ (52 - Z.log2 n))).
    rewrite inject_Z_mult, pow2_Z by lia. rewrite <- Qmult_assoc, <- pow2_add.
    replace (52 - Z.log2 n + (Z.log2 n - 52))%Z with 0%Z by lia.
    change (2 ^ 0) with 1. ring.
Qed.

(** *** [round64] *)

(** Rounding keeps the sign. *)
Lemma round64_nonpos q : q <= 0 -> round64 q <= 0.
Proof.
  intros H. unfold round64. destruct (Qcompare_spec q 0) as [Hc|Hc|Hc].
  - apply Qle_refl.
  - assert (0 <= round_pos (- q)) by (apply round_pos_nonneg; lra). lra.
  - exfalso. lra.
Qed.

Lemma round64_nonneg q : 0 <= q -> 0 <= round64 q.
Proof.
  intros H. unfold round64. destruct (Qcompare_spec q 0) as [Hc|Hc|Hc].
  - apply Qle_refl.
  - exfalso. lra.
  - by apply round_pos_nonneg.
Qed.

Lemma round64_pos q : 0 < q -> round64 q = round_pos q.
Proof.
  intros H. unfold round64.
  destruct (Qcompare_spec q 0) as [Hc|Hc|Hc]; [exfalso; lra|exfalso; lra|reflexivity].
Qed.

Lemma round64_neg q : q < 0 -> round64 q = - round_pos (- q).
Proof.
  intros H. unfold round64.
  destruct (Qcompare_spec q 0) as [Hc|Hc|Hc]; [exfalso; lra|reflexivity|exfalso; lra].
Qed.

(** Rounding is monotone. *)
Lemma round64_mono p q : p <= q -> round64 p <= round64 q.
Proof.
  intros Hpq.
  destruct (Qlt_le_dec 0 p) as [Hp|Hp].
  - assert (Hq : 0 < q) by (eapply Qlt_le_trans; eauto).
    rewrite (round64_pos p Hp), (round64_pos q Hq). by apply round_pos_mono.
  - destruct (Qlt_le_dec q 0) as [Hq|Hq].
    + assert (Hp' : p < 0) by lra.
      rewrite (round64_neg p Hp'), (round64_neg q Hq).
      apply Qopp_le_compat. apply round_pos_mono; lra.
    + apply Qle_trans with 0; [by apply round64_nonpos|by apply round64_nonneg].
Qed.

#[global] Instance round64_comp : Proper (Qeq ==> Qeq) round64.
Proof.
  intros p q H. apply Qle_antisym; apply round64_mono; rewrite H; apply Qle_refl.
Qed.

(** An integer of at most 53 bits is not changed. *)
Lemma round64_Z x n : x == inject_Z n -> (Z.abs n <= 2 ^ 53)%Z -> round64 x == inject_Z n.
Proof.
  intros -> Hn. unfold round64.
  destruct (Qcompare_spec (inject_Z n) 0) as [Hc|Hc|Hc].
  - symmetry. exact Hc.
  - change 0 with (inject_Z 0) in Hc. rewrite <- Zlt_Qlt in Hc.
    rewrite <- inject_Z_opp, round_pos_Z by lia.
    rewrite inject_Z_opp. ring.
  - change 0 with (inject_Z 0) in Hc. rewrite <- Zlt_Qlt in Hc.
    apply round_pos_Z. lia.
Qed.

(** The rounding is that of the hardware: the rounded difference of two
    binary64 values is the value of the binary64 subtraction. *)
Example round64_sub_a :
  round64 (float_to_Q 60.3 - float_to_Q 0.3) == float_to_Q (60.3 - 0.3)%float
  /\ float_to_Q (60.3 - 0.3)%float == 60.
Proof. vm_compute. split; reflexivity. Qed.

Example round64_sub_b :
  round64 (float_to_Q 30.2 - float_to_Q 0.2) == float_to_Q (30.2 - 0.2)%float
  /\ float_to_Q (30.2 - 0.2)%float == 30.
Proof. vm_compute. split; reflexivity. Qed.

Example round64_sub_c :
  round64 (float_to_Q 9007199254740994 - float_to_Q 1)
    == float_to_Q (9007199254740994 - 1)%float
  /\ float_to_Q (9007199254740994 - 1)%float == 9007199254740992.
Proof. vm_compute. split; reflexivity. Qed.

Example round64_sub_d :
  round64 (float_to_Q 0.1 - float_to_Q 0.3) == float_to_Q (0.1 - 0.3)%float.
Proof. vm_compute. reflexivity. Qed.

Example round64_sub_e :
  round64 (float_to_Q 1762183922.123456 - float_to_Q 1762183800.987654)
    == float_to_Q (1762183922.123456 - 1762183800.987654)%float.
Proof. vm_compute. reflexivity. Qed.

Example round64_sub_f :
  round64 (float_to_Q 5e-324 - float_to_Q 1.5e-323)
    == float_to_Q (5e-324 - 1.5e-323)%float.
Proof. vm_compute. reflexivity. Qed.

Example round64_div_a :
  round64 (123456789 # 1000000) == float_to_Q (123456789 / 1000000)%float.
Proof. vm_compute. reflexivity. Qed.

Example round64_div_b :
  round64 (1 # 1000000) == float_to_Q (1 / 1000000)%float.
Proof. vm_compute. reflexivity. Qed.

End Binary64Facts.


(** * Properties of the behaviour rules engine *)

Module BehaviorFacts.

Import Behavior.
Local Open Scope Q_scope.

Lemma ge_int_true (x : Q) (n : Z) : ge_int x n = true <-> inject_Z n <= x.
Proof. unfold ge_int. apply Qle_bool_iff. Qed.

Lemma ge_int_false (x : Q) (n : Z) : ge_int x n = false <-> x < inject_Z n.
Proof.
  unfold ge_int. split; intros H.
  - apply Qnot_le_lt. intros Hle. apply Qle_bool_iff in Hle. congruence.
  - destruct (Qle_bool (inject_Z n) x) eqn:E; [|reflexivity].
    apply Qle_bool_iff in E. exfalso. eapply Qlt_not_le; eauto.
Qed.

Lemma motion_active_true (sig : BehaviorSignals) :
  motion_active sig = true <-> motion_threshold sig <= motion_value sig.
Proof. unfold motion_active. apply Qle_bool_iff. Qed.

Lemma motion_active_false (sig : BehaviorSignals) :
  motion_active sig = false <-> motion_value sig < motion_threshold sig.
Proof.
  unfold motion_active. split; intros H.
  - apply Qnot_le_lt. intros Hle. apply Qle_bool_iff in Hle. congruence.
  - destruct (Qle_bool _ _) eqn:E; [|reflexivity].
    apply Qle_bool_iff in E. exfalso. eapply Qlt_not_le; eauto.
Qed.

(** With a face in the frame the no-face tracker is cleared, so the elapsed
    no-face time of the tick is zero. *)
Lemma no_face_s_present st sig now :
  face_present sig = true -> no_face_s st sig now = 0.
Proof.
  intros Hf. unfold no_face_s, update_trackers. rewrite Hf.
  destruct (motion_active sig); reflexivity.
Qed.

(** Without a face the elapsed no-face time is counted from the stamp the
    tracker holds after the tick. *)
Lemma no_face_s_absent st sig now :
  face_present sig = false ->
  no_face_s st sig now = _since now (Some (or_else (no_face_since st) now)).
Proof. intros Hf. unfold no_face_s, update_trackers. rewrite Hf. reflexivity. Qed.

(** Without a face, none of the rules that need one can fire: the tick
    always answers [away]. *)
Lemma face_absent_away cfg st sig now :
  face_present sig = false ->
  fst (update_behavior_state cfg st sig now) = away.
Proof.
  intros Hf. unfold update_behavior_state. rewrite Hf.
  rewrite !andb_false_l, !andb_false_r.
  destruct (ge_int _ _); reflexivity.
Qed.

(** The motion trackers under a face without motion / with motion. *)
Lemma motion_active_s_still st sig now :
  face_present sig = true -> motion_active sig = false ->
  motion_active_s st sig now = 0.
Proof.
  intros Hf Hm. unfold motion_active_s, update_trackers. rewrite Hf, Hm. reflexivity.
Qed.

Lemma no_motion_s_moving st sig now :
  face_present sig = true -> motion_active sig = true ->
  no_motion_s st sig now = 0.
Proof.
  intros Hf Hm. unfold no_motion_s, update_trackers. rewrite Hf, Hm. reflexivity.
Qed.

Lemma last_state_update_trackers st sig now :
  last_state (update_trackers st sig now) = last_state st.
Proof.
  unfold update_trackers.
  destruct (face_present sig); [destruct (motion_active sig)|]; reflexivity.
Qed.

(** The behaviour scenario of the specification: ticks at 0, 10, 20 and 31
    seconds with motion above the threshold. *)
Example scenario_sustained_motion :
  let sig := mkBehaviorSignals true 5 2 in
  fst (run default_config initial_state [(sig, 0); (sig, 10); (sig, 20); (sig, 31)])
    = [active; active; active; active].
Proof. vm_compute. reflexivity. Qed.

(** C1. Away dominance: whenever the elapsed no-face time of the tick
    reaches [away_seconds], the call returns [away] and stores it in
    [last_state], whatever the motion signals and the previous state. *)
Theorem away_dominance cfg st sig now :
  inject_Z (away_seconds cfg) <= no_face_s st sig now ->
  fst (update_behavior_state cfg st sig now) = away /\
  last_state (snd (update_behavior_state cfg st sig now)) = Some away.
Proof.
  intros H. apply ge_int_true in H.
  unfold update_behavior_state. rewrite H. split; reflexivity.
Qed.

Lemma away_dominance_witness :
  let cfg := default_config in
  let st := mkBehaviorState (Some active) None (Some 10) None None in
  let sig := mkBehaviorSignals false 9 2 in
  fst (update_behavior_state cfg st sig 200) = away /\
  last_state (snd (update_behavior_state cfg st sig 200)) = Some away.
Proof.
  intros cfg st sig. apply (away_dominance cfg st sig 200).
  vm_compute. discriminate.
Defined.

Lemma run_snoc cfg st ticks sig now :
  run cfg st (ticks ++ [(sig, now)]) =
    (fst (run cfg st ticks)
       ++ [fst (update_behavior_state cfg (snd (run cfg st ticks)) sig now)],
     snd (update_behavior_state cfg (snd (run cfg st ticks)) sig now)).
Proof.
  unfold run. rewrite fold_left_app. cbn.
  destruct (update_behavior_state _ _ _ _). reflexivity.
Qed.

(** The same over a whole history: whatever ticks came before, a tick on
    which the elapsed no-face time reaches [away_seconds] is answered
    [away]. *)
Lemma away_dominance_history cfg st history sig now :
  inject_Z (away_seconds cfg) <= no_face_s (snd (run cfg st history)) sig now ->
  last (fst (run cfg st (history ++ [(sig, now)]))) = Some away.
Proof.
  intros H. apply ge_int_true in H.
  rewrite run_snoc. cbn [fst]. rewrite last_snoc.
  unfold update_behavior_state. rewrite H. reflexivity.
Qed.

(** C5. Return optimism: with positive confirmation windows, a subject
    whose last state is [away] and whose face is back (elapsed no-face time
    below [away_seconds]) is answered [active] on that very tick when the
    motion value reaches the threshold, and [idle] when it is below. *)
Theorem return_optimism cfg st sig now :
  (0 < active_confirm_seconds cfg)%Z ->
  (0 < idle_seconds cfg)%Z ->
  last_state st = Some away ->
  face_present sig = true ->
  no_face_s st sig now < inject_Z (away_seconds cfg) ->
  (motion_threshold sig <= motion_value sig ->
     fst (update_behavior_state cfg st sig now) = active) /\
  (motion_value sig < motion_threshold sig ->
     fst (update_behavior_state cfg st sig now) = idle).
Proof.
  intros Hac Hid Hlast Hf Haway.
  apply ge_int_false in Haway.
  assert (Hz : forall n : Z, (0 < n)%Z -> ge_int 0 n = false).
  { intros n Hn. apply ge_int_false.
    change 0 with (inject_Z 0). rewrite <- Zlt_Qlt. exact Hn. }
  split; intros Hm.
  - apply motion_active_true in Hm.
    unfold update_behavior_state.
    rewrite Haway, Hf, (no_motion_s_moving _ _ _ Hf Hm), (Hz _ Hid).
    rewrite last_state_update_trackers, Hlast, Hm. cbn.
    destruct (ge_int (motion_active_s st sig now) _); reflexivity.
  - apply motion_active_false in Hm.
    unfold update_behavior_state.
    rewrite Haway, Hf, (motion_active_s_still _ _ _ Hf Hm), (Hz _ Hac).
    rewrite last_state_update_trackers, Hlast, Hm. cbn.
    destruct (ge_int (no_motion_s st sig now) _); reflexivity.
Qed.

Lemma return_optimism_witness :
  let cfg := default_config in
  let st := mkBehaviorState (Some away) None (Some 100) None None in
  fst (update_behavior_state cfg st (mkBehaviorSignals true 5 2) 400) = active /\
  fst (update_behavior_state cfg st (mkBehaviorSignals true 1 2) 400) = idle.
Proof.
  intros cfg st. split.
  - apply (return_optimism cfg st (mkBehaviorSignals true 5 2) 400);
      try reflexivity; vm_compute; try reflexivity; discriminate.
  - apply (return_optimism cfg st (mkBehaviorSignals true 1 2) 400);
      try reflexivity; vm_compute; try reflexivity; discriminate.
Defined.

(** C7. Stickiness: with a face present and neither the away rule nor the
    idle rule confirmed, a previous [active] is kept by a tick whose motion
    is below the threshold; and a previous [idle] is kept by a tick that
    does not confirm the active rule either. The stored state is unchanged.
    The elapsed times are those the call computes at lines 69-71, by a
    float subtraction. *)
Theorem stickiness cfg st sig now :
  face_present sig = true ->
  no_face_s st sig now < inject_Z (away_seconds cfg) ->
  no_motion_s st sig now < inject_Z (idle_seconds cfg) ->
  (last_state st = Some active ->
   motion_value sig < motion_threshold sig ->
     fst (update_behavior_state cfg st sig now) = active /\
     last_state (snd (update_behavior_state cfg st sig now)) = Some active) /\
  (last_state st = Some idle ->
   motion_active_s st sig now < inject_Z (active_confirm_seconds cfg) ->
     fst (update_behavior_state cfg st sig now) = idle /\
     last_state (snd (update_behavior_state cfg st sig now)) = Some idle).
Proof.
  intros Hf Haway Hidle.
  apply ge_int_false in Haway. apply ge_int_false in Hidle.
  split.
  - intros Hlast Hm.
    unfold update_behavior_state.
    rewrite Haway, Hf, Hidle, last_state_update_trackers, Hlast. cbn.
    destruct (ge_int (motion_active_s st sig now) _); cbn;
      rewrite ?last_state_update_trackers, ?Hlast; split; reflexivity.
  - intros Hlast Hact. apply ge_int_false in Hact.
    unfold update_behavior_state.
    rewrite Haway, Hf, Hidle, Hact, last_state_update_trackers, Hlast. cbn.
    rewrite last_state_update_trackers, Hlast. split; reflexivity.
Qed.

Lemma stickiness_witness :
  let cfg := default_config in
  let st_a := mkBehaviorState (Some active) (Some 100) None (Some 100) None in
  let st_i := mkBehaviorState (Some idle) (Some 100) None None (Some 100) in
  fst (update_behavior_state cfg st_a (mkBehaviorSignals true 1 2) 110) = active /\
  fst (update_behavior_state cfg st_i (mkBehaviorSignals true 5 2) 110) = idle.
Proof.
  intros cfg st_a st_i. split.
  - apply (stickiness cfg st_a (mkBehaviorSignals true 1 2) 110);
      try reflexivity; vm_compute; try reflexivity; discriminate.
  - apply (stickiness cfg st_i (mkBehaviorSignals true 5 2) 110);
      try reflexivity; vm_compute; try reflexivity; discriminate.
Defined.

(** The elapsed times are rounded. Stillness that began at the float 0.3
    has lasted less than 60 seconds at the float 60.3, but the float
    subtraction gives 60.0: the idle rule is confirmed and a previous
    [active] is not kept. Likewise for motion from 0.2 to 30.2 and a
    previous [idle]. *)
Example stickiness_at_rounded_boundary :
  let still := mkBehaviorSignals true 1 2 in
  let moving := mkBehaviorSignals true 5 2 in
  let t0 := Binary64.float_to_Q 0.3 in
  let t1 := Binary64.float_to_Q 60.3 in
  let u0 := Binary64.float_to_Q 0.2 in
  let u1 := Binary64.float_to_Q 30.2 in
  let st_a := mkBehaviorState (Some active) (Some t0) None None (Some t0) in
  let st_i := mkBehaviorState (Some idle) (Some u0) None (Some u0) None in
  t1 - t0 < 60 /\ no_motion_s st_a still t1 == 60 /\
  fst (update_behavior_state default_config st_a still t1) = idle /\
  u1 - u0 < 30 /\ motion_active_s st_i moving u1 == 30 /\
  fst (update_behavior_state default_config st_i moving u1) = active.
Proof. vm_compute. repeat split; reflexivity. Qed.

(** *** The four "since" trackers *)

(** The rules never touch the trackers: the state returned by the call
    carries the trackers of [update_trackers]. *)
Lemma tracker_of_update cfg k st sig now :
  tracker_of k (snd (update_behavior_state cfg st sig now)) =
  tracker_of k (update_trackers st sig now).
Proof.
  unfold update_behavior_state.
  repeat match goal with
         | |- context [if ?b then _ else _] => destruct b
         end; destruct k; reflexivity.
Qed.

(** A tracker whose condition holds on the tick is set afterwards, the
    one of the opposite condition is cleared. *)
Lemma tracker_condition cfg k st sig now :
  condition_of k sig = true ->
  tracker_of k (snd (update_behavior_state cfg st sig now)) =
    Some (or_else (tracker_of k st) now) /\
  tracker_of (opposite k) (snd (update_behavior_state cfg st sig now)) = None.
Proof.
  intros Hc. rewrite !tracker_of_update. unfold update_trackers.
  destruct k; cbn in *;
    destruct (face_present sig); cbn in *; try discriminate;
    destruct (motion_active sig); cbn in *; try discriminate;
    split; reflexivity.
Qed.

(** Unchanged condition, stamp other than zero: the stamp is kept. *)
Lemma since_kept cfg k st sig now t :
  tracker_of k st = Some t -> ~ t == 0 ->
  condition_of k sig = true ->
  tracker_of k (snd (update_behavior_state cfg st sig now)) = Some t.
Proof.
  intros Ht Hnz Hc.
  destruct (tracker_condition cfg k st sig now Hc) as [-> _].
  rewrite Ht. unfold or_else, truthy.
  destruct (Qeq_bool t 0) eqn:E; [|reflexivity].
  apply Qeq_bool_iff in E. contradiction.
Qed.

(** A flip: the tracker of the condition that has just become true is
    stamped with the time of the tick. *)
Lemma since_flip cfg k st sig now :
  tracker_of k st = None ->
  condition_of k sig = true ->
  tracker_of k (snd (update_behavior_state cfg st sig now)) = Some now /\
  tracker_of (opposite k) (snd (update_behavior_state cfg st sig now)) = None.
Proof.
  intros Ht Hc.
  destruct (tracker_condition cfg k st sig now Hc) as [-> ->].
  rewrite Ht. split; reflexivity.
Qed.

(** A tracker whose condition does not hold on the tick is cleared. *)
Lemma since_cleared cfg k st sig now :
  condition_of k sig = false ->
  tracker_of k (snd (update_behavior_state cfg st sig now)) = None.
Proof.
  intros Hc. rewrite tracker_of_update. unfold update_trackers.
  destruct k; cbn in *;
    destruct (face_present sig); cbn in *; try discriminate;
    destruct (motion_active sig); cbn in *; try discriminate; reflexivity.
Qed.

(** A stamp equal to zero is falsy for [or]: it is replaced by the time of
    the tick although the condition did not change. *)
Lemma since_zero_replaced cfg k st sig now t :
  tracker_of k st = Some t -> t == 0 ->
  condition_of k sig = true ->
  tracker_of k (snd (update_behavior_state cfg st sig now)) = Some now.
Proof.
  intros Ht Hz Hc.
  destruct (tracker_condition cfg k st sig now Hc) as [-> _].
  rewrite Ht. unfold or_else, truthy.
  apply Qeq_bool_iff in Hz. rewrite Hz. reflexivity.
Qed.

(** C6. Idempotent "since" tracking, at a tick stamped 0: a subject first
    seen moving at [now_ts = 0] and seen moving again at [now_ts = 10] has
    both running trackers moved from 0 to 10, although neither condition
    changed between the two ticks. *)
Theorem since_tracking_zero_timestamp :
  let sig := mkBehaviorSignals true 5 2 in
  let st1 := snd (update_behavior_state default_config initial_state sig 0) in
  let st2 := snd (update_behavior_state default_config st1 sig 10) in
  condition_of FacePresent sig = true /\ condition_of MotionActive sig = true /\
  tracker_of FacePresent st1 = Some 0 /\ tracker_of MotionActive st1 = Some 0 /\
  tracker_of FacePresent st2 = Some 10 /\ tracker_of MotionActive st2 = Some 10.
Proof. vm_compute. repeat split; reflexivity. Qed.

End BehaviorFacts.


(** * Properties of the motion estimation *)

Module IngestFacts.

Import Ingest.
Local Open Scope float_scope.

Section Motion.

Variable float_pow : float -> float -> float.





End Motion.


(** From a centre at the origin to one at (3, 4) the sample is 5: the
    average goes from 0 to 1.5, and on to 1.05 when the next sample does
    not move. *)
Example motion_ema_three_four_five :
  let st0 := observe_position pow_by_sqrt new_subject (0, 0) 1 in
  let st1 := observe_position pow_by_sqrt st0 (3, 4) 2 in
  let st2 := observe_position pow_by_sqrt st1 (3, 4) 3 in
  motion_ema st0 = 0 /\ center_distance pow_by_sqrt (3, 4) (0, 0) = 5 /\
  motion_ema st1 = 1.5 /\ motion_ema st2 = 0.7 * 1.5.
Proof. vm_compute. repeat split; reflexivity. Qed.

End IngestFacts.


(** * Properties of the zone compliance engine *)

Module ComplianceFacts.

Import Compliance.
Local Open Scope Z_scope.

(** Closed decidable goals (membership, absence of duplicates) are settled
    by evaluation. *)
Ltac by_computation := apply (bool_decide_unpack _); vm_compute; exact I.

(** *** One zone *)

Section OneZone.

Variables (rs : gmap string Role) (regs : gmap string Regulation) (t : Tally) (now : Z).

Lemma eval_zone_id (c : gmap string ZoneState) (z : Zone) :
  out_zone_id (eval_zone rs regs t now c z).1 = zone_id z.
Proof.
  unfold eval_zone.
  destruct (type z ≫= (regs !!.)) as [reg|]; [|reflexivity].
  destruct (last_seen_of t (zone_id z)); [|reflexivity].
  destruct (compute_state _ _ _ _); reflexivity.
Qed.

(** An iteration writes the cache at the key of its own zone only. *)
Lemma eval_zone_frame (c : gmap string ZoneState) (z : Zone) (k : string) :
  k ≠ zone_id z -> (eval_zone rs regs t now c z).2 !! k = c !! k.
Proof.
  intros Hk. unfold eval_zone.
  destruct (type z ≫= (regs !!.)) as [reg|]; [|reflexivity].
  destruct (last_seen_of t (zone_id z)).
  - destruct (compute_state _ _ _ _). cbn. by rewrite lookup_insert_ne.
  - cbn. by rewrite lookup_insert_ne.
Qed.

(** An iteration reads the cache at the key of its own zone only. *)
Lemma eval_zone_local (c c' : gmap string ZoneState) (z : Zone) :
  c !! zone_id z = c' !! zone_id z ->
  (eval_zone rs regs t now c z).1 = (eval_zone rs regs t now c' z).1 /\
  (eval_zone rs regs t now c z).2 !! zone_id z
    = (eval_zone rs regs t now c' z).2 !! zone_id z.
Proof.
  intros Hc. unfold eval_zone.
  destruct (type z ≫= (regs !!.)) as [reg|]; [|by split].
  destruct (last_seen_of t (zone_id z)).
  - destruct (compute_state _ _ _ _). cbn. rewrite Hc.
    split; [reflexivity|]. by rewrite !lookup_insert_eq.
  - cbn. rewrite Hc. split; [reflexivity|]. by rewrite !lookup_insert_eq.
Qed.

(** A zone with a regulation leaves in the cache the state and the [since]
    it emitted. *)
Lemma eval_zone_cached (c : gmap string ZoneState) (z : Zone) (reg : Regulation) :
  type z ≫= (regs !!.) = Some reg ->
  (eval_zone rs regs t now c z).2 !! zone_id z =
    Some (mkZoneState (out_state (eval_zone rs regs t now c z).1)
            (out_since (eval_zone rs regs t now c z).1)
            (last_seen_of t (zone_id z))).
Proof.
  intros Hreg. unfold eval_zone. rewrite Hreg.
  destruct (last_seen_of t (zone_id z)).
  - destruct (compute_state _ _ _ _). cbn. by rewrite lookup_insert_eq.
  - cbn. by rewrite lookup_insert_eq.
Qed.

(** The no-regulation branch (lines 108-130). *)
Lemma eval_zone_no_regulation (c : gmap string ZoneState) (z : Zone) :
  type z ≫= (regs !!.) = None ->
  eval_zone rs regs t now c z =
    (mkZoneOut (zone_id z) None UNKNOWN ["no_regulation"] now "info", c).
Proof. intros Hreg. unfold eval_zone. by rewrite Hreg. Qed.

(** The branch without recent events (lines 143-172). *)
Lemma eval_zone_no_presence (c : gmap string ZoneState) (z : Zone) (reg : Regulation) :
  type z ≫= (regs !!.) = Some reg ->
  last_seen_of t (zone_id z) = None ->
  (eval_zone rs regs t now c z).1 =
    mkZoneOut (zone_id z) (regulation_id reg)
      (match c !! zone_id z with None => INITIALIZING | Some _ => UNKNOWN end) []
      (match c !! zone_id z with Some p => since p | None => now end) "info".
Proof. intros Hreg Hseen. unfold eval_zone. by rewrite Hreg, Hseen. Qed.

(** The main branch (lines 174-240). *)
Lemma eval_zone_presence (c : gmap string ZoneState) (z : Zone) (reg : Regulation)
    (seen_ts : Z) :
  type z ≫= (regs !!.) = Some reg ->
  last_seen_of t (zone_id z) = Some seen_ts ->
  let cs := compute_state rs reg (type z) (default [] (zone_counts t !! zone_id z)) in
  let state_since := hysteresis_since (c !! zone_id z) cs.2 now in
  (eval_zone rs regs t now c z).1 =
    mkZoneOut (zone_id z) (regulation_id reg)
      (escalate (violation_escalation_seconds reg) cs.2 now state_since)
      cs.1 state_since (default "high" (severity reg)).
Proof.
  intros Hreg Hseen. unfold eval_zone. rewrite Hreg, Hseen.
  destruct (compute_state _ _ _ _). reflexivity.
Qed.

End OneZone.

(** *** The state computed from the presence *)

Lemma required_step_state counts acc rc :
  acc.2 = COMPLIANT \/ acc.2 = UNDERSTAFFED \/ acc.2 = OVERSTAFFED ->
  (required_step counts acc rc).2 = COMPLIANT \/
  (required_step counts acc rc).2 = UNDERSTAFFED \/
  (required_step counts acc rc).2 = OVERSTAFFED.
Proof.
  intros Hacc. unfold required_step.
  destruct (count_of _ _ <? _); destruct (default 999 _ <? _); cbn; auto.
Qed.

Lemma required_loop_state counts reqs acc :
  acc.2 = COMPLIANT \/ acc.2 = UNDERSTAFFED \/ acc.2 = OVERSTAFFED ->
  (foldl (required_step counts) acc reqs).2 = COMPLIANT \/
  (foldl (required_step counts) acc reqs).2 = UNDERSTAFFED \/
  (foldl (required_step counts) acc reqs).2 = OVERSTAFFED.
Proof.
  revert acc. induction reqs as [|rc reqs IH]; intros acc Hacc; cbn; [done|].
  apply IH. by apply required_step_state.
Qed.

(** Before escalation the computed state is never [CRITICAL_VIOLATION]. *)
Lemma compute_state_range rs reg ztype counts :
  (compute_state rs reg ztype counts).2 <> CRITICAL_VIOLATION.
Proof.
  unfold compute_state.
  pose proof (required_loop_state counts (required_roles reg)
    (flat_map (role_violations rs (forbidden_roles reg) ztype) (map fst counts), COMPLIANT))
    as Hloop.
  destruct (foldl _ _ _) as [violations st]. cbn in *.
  destruct violations; [discriminate|].
  destruct (existsb _ _); [discriminate|].
  destruct Hloop as [-> | [-> | ->]]; auto; discriminate.
Qed.

(** *** Escalation *)

Lemma escalate_cases esc computed now state_since :
  escalate esc computed now state_since = computed \/
  escalate esc computed now state_since = CRITICAL_VIOLATION.
Proof.
  unfold escalate.
  repeat match goal with
         | |- context [if ?b then _ else _] => destruct b
         end; auto.
Qed.

(** The test of lines 211 and 215. *)
Lemma elapsed_exceeds_true now state_since threshold :
  elapsed_exceeds now state_since threshold = true <->
  (inject_Z threshold < total_seconds (now - state_since))%Q.
Proof.
  unfold elapsed_exceeds. rewrite negb_true_iff. split; intros H.
  - apply Qnot_le_lt. intros Hle. apply Qle_bool_iff in Hle. congruence.
  - destruct (Qle_bool _ _) eqn:E; [|reflexivity].
    apply Qle_bool_iff in E. exfalso. apply (Qlt_not_le _ _ H E).
Qed.

Lemma elapsed_exceeds_false now state_since threshold :
  elapsed_exceeds now state_since threshold = false <->
  (total_seconds (now - state_since) <= inject_Z threshold)%Q.
Proof. unfold elapsed_exceeds. rewrite negb_false_iff. apply Qle_bool_iff. Qed.

(** [total_seconds()] grows with the difference, is exact on a whole
    number of seconds below [2 ^ 53], and is not positive when the
    difference is not. *)
Lemma total_seconds_mono d1 d2 :
  d1 <= d2 -> (total_seconds d1 <= total_seconds d2)%Q.
Proof. intros H. apply Binary64Facts.round64_mono. unfold Qle. cbn. lia. Qed.

Lemma total_seconds_whole n :
  Z.abs n <= 2 ^ 53 -> (total_seconds (seconds n) == inject_Z n)%Q.
Proof.
  intros H. apply Binary64Facts.round64_Z; [|exact H].
  unfold seconds, Qeq. cbn. lia.
Qed.

Lemma total_seconds_nonpos d : d <= 0 -> (total_seconds d <= 0)%Q.
Proof. intros H. apply Binary64Facts.round64_nonpos. unfold Qle. cbn. lia. Qed.

(** When no time has passed, a threshold that is not negative is not
    exceeded. *)
Lemma elapsed_not_exceeded now state_since threshold :
  now <= state_since -> 0 <= threshold ->
  elapsed_exceeds now state_since threshold = false.
Proof.
  intros Hle Ht. apply elapsed_exceeds_false.
  apply Qle_trans with 0%Q; [apply total_seconds_nonpos; lia|].
  change 0%Q with (inject_Z 0). rewrite <- Zle_Qle. exact Ht.
Qed.

(** The rounding of [total_seconds()] can hide a microsecond: twenty
    billion seconds and one microsecond are twenty billion seconds. *)
Example total_seconds_rounds :
  (total_seconds (seconds 20000000000 + 1) == inject_Z 20000000000)%Q /\
  elapsed_exceeds (seconds 20000000000 + 1) 0 20000000000 = false.
Proof. vm_compute. split; reflexivity. Qed.

(** A state that has just begun is not escalated when the thresholds are
    not negative. *)
Lemma escalate_fresh esc computed now :
  0 <= default 120 (esc !! "understaffed") ->
  0 <= default 60 (esc !! "unauthorized") ->
  escalate esc computed now now = computed.
Proof.
  intros H1 H2. unfold escalate.
  rewrite !elapsed_not_exceeded by (assumption || lia).
  repeat match goal with
         | |- context [if ?b then _ else _] => destruct b
         end; reflexivity.
Qed.

Lemma escalate_understaffed esc now state_since :
  escalate esc UNDERSTAFFED now state_since =
    if elapsed_exceeds now state_since (default 120 (esc !! "understaffed"))
    then CRITICAL_VIOLATION else UNDERSTAFFED.
Proof.
  unfold escalate.
  destruct (decide (UNDERSTAFFED = UNDERSTAFFED ∨ UNDERSTAFFED = OVERSTAFFED))
    as [_|Hn]; [|exfalso; apply Hn; by left].
  destruct (elapsed_exceeds _ _ _); reflexivity.
Qed.

(** *** The loop over the zones *)

Lemma zone_entry_snoc (outs : list ZoneOut) (o : ZoneOut) (zid : string) :
  zone_entry (outs ++ [o]) zid =
    match zone_entry outs zid with
    | Some x => Some x
    | None => if bool_decide (out_zone_id o = zid) then Some o else None
    end.
Proof.
  unfold zone_entry. induction outs as [|a outs IH]; cbn; [reflexivity|].
  destruct (bool_decide (out_zone_id a = zid)); [reflexivity|exact IH].
Qed.

Section Loop.

Variables (rs : gmap string Role) (regs : gmap string Regulation) (t : Tally) (now : Z).

Lemma eval_step_unfold acc z :
  eval_step rs regs t now acc z =
    (acc.1 ++ [(eval_zone rs regs t now acc.2 z).1], (eval_zone rs regs t now acc.2 z).2).
Proof. unfold eval_step. destruct (eval_zone _ _ _ _ _ _); reflexivity. Qed.

(** Zones with another identifier leave the entry and the cache slot of
    [zid] as they are. *)
Lemma eval_loop_skip (zs : list Zone) acc (zid : string) :
  zid ∉ zone_id <$> zs ->
  zone_entry (foldl (eval_step rs regs t now) acc zs).1 zid = zone_entry acc.1 zid /\
  (foldl (eval_step rs regs t now) acc zs).2 !! zid = acc.2 !! zid.
Proof.
  revert acc. induction zs as [|z zs IH]; intros acc Hnot; cbn; [by split|].
  rewrite fmap_cons, not_elem_of_cons in Hnot. destruct Hnot as [Hne Hnot].
  destruct (IH (eval_step rs regs t now acc z) Hnot) as [-> ->].
  rewrite eval_step_unfold. cbn [fst snd]. split.
  - rewrite zone_entry_snoc, eval_zone_id.
    destruct (zone_entry acc.1 zid); [reflexivity|].
    rewrite bool_decide_eq_false_2; [reflexivity|congruence].
  - by apply eval_zone_frame.
Qed.

(** With pairwise distinct identifiers, the entry of a zone and its cache
    slot are those of its own iteration run on the incoming cache. *)
Lemma eval_loop_zone (zs : list Zone) acc (z : Zone) :
  NoDup (zone_id <$> zs) -> z ∈ zs ->
  zone_entry acc.1 (zone_id z) = None ->
  zone_entry (foldl (eval_step rs regs t now) acc zs).1 (zone_id z)
    = Some (eval_zone rs regs t now acc.2 z).1 /\
  (foldl (eval_step rs regs t now) acc zs).2 !! zone_id z
    = (eval_zone rs regs t now acc.2 z).2 !! zone_id z.
Proof.
  revert acc. induction zs as [|z0 zs IH]; intros acc Hnd Hin Hfresh.
  { by apply elem_of_nil in Hin. }
  rewrite fmap_cons in Hnd. apply NoDup_cons in Hnd as [Hz0 Hnd].
  cbn [foldl]. apply elem_of_cons in Hin as [->|Hin].
  - destruct (eval_loop_skip zs (eval_step rs regs t now acc z0) (zone_id z0) Hz0) as [-> ->].
    rewrite eval_step_unfold. cbn [fst snd]. split; [|reflexivity].
    rewrite zone_entry_snoc, Hfresh, eval_zone_id.
    by rewrite bool_decide_eq_true_2.
  - assert (zone_id z ≠ zone_id z0) as Hne.
    { intros Heq. apply Hz0. rewrite <- Heq. by apply list_elem_of_fmap_2. }
    assert ((eval_step rs regs t now acc z0).2 !! zone_id z = acc.2 !! zone_id z) as Hc.
    { rewrite eval_step_unfold. cbn [fst snd]. by apply eval_zone_frame. }
    assert (zone_entry (eval_step rs regs t now acc z0).1 (zone_id z) = None) as Hfresh'.
    { rewrite eval_step_unfold. cbn [fst snd].
      rewrite zone_entry_snoc, Hfresh, eval_zone_id.
      rewrite bool_decide_eq_false_2; [reflexivity|congruence]. }
    destruct (IH (eval_step rs regs t now acc z0) Hnd Hin Hfresh') as [-> ->].
    destruct (eval_zone_local rs regs t now _ _ z Hc) as [-> ->]. by split.
Qed.

(** Every zone of the list gets an entry, computed by its iteration on
    some cache. *)
Lemma eval_loop_member (zs : list Zone) acc (z : Zone) :
  z ∈ zs ->
  exists c, (eval_zone rs regs t now c z).1 ∈ (foldl (eval_step rs regs t now) acc zs).1.
Proof.
  revert acc. induction zs as [|z0 zs IH]; intros acc Hin.
  { by apply elem_of_nil in Hin. }
  cbn [foldl]. apply elem_of_cons in Hin as [->|Hin]; [|by apply IH].
  exists acc.2. clear IH.
  assert (forall zs' acc' (o : ZoneOut), o ∈ acc'.1 -> o ∈ (foldl (eval_step rs regs t now) acc' zs').1) as Hmono.
  { induction zs' as [|z1 zs' IH']; intros acc' o Ho; cbn; [done|].
    apply IH'. rewrite eval_step_unfold. cbn [fst snd]. apply elem_of_app. by left. }
  apply Hmono. rewrite eval_step_unfold. cbn [fst snd].
  apply elem_of_app. right. by apply list_elem_of_singleton.
Qed.

Lemma eval_loop_length (zs : list Zone) acc :
  length (foldl (eval_step rs regs t now) acc zs).1 = (length acc.1 + length zs)%nat.
Proof.
  revert acc. induction zs as [|z zs IH]; intros acc; cbn; [lia|].
  rewrite IH, eval_step_unfold. cbn [fst snd]. rewrite length_app. cbn. lia.
Qed.

End Loop.

(** *** One evaluation *)

Lemma evaluate_unfold m presence now cache :
  evaluate_zone_compliance m presence now cache =
    let r := foldl (eval_step (roles_by_id m) (regulations_by_type m)
                      (tally m presence) now) ([], cache) (zones m) in
    (r.1, map (fun o => _event_payload o now) r.1, r.2).
Proof. unfold evaluate_zone_compliance. destruct (foldl _ _ _). reflexivity. Qed.

(** The events are the zone entries, stamped with the evaluation time. *)
Lemma events_of_evaluate m presence now cache :
  events_of (evaluate_zone_compliance m presence now cache) =
    map (fun o => _event_payload o now)
      (zones_of (evaluate_zone_compliance m presence now cache)).
Proof. rewrite evaluate_unfold. reflexivity. Qed.

(** The entry and the cache slot of a zone after one evaluation. *)
Lemma evaluate_zone m presence now cache (z : Zone) :
  NoDup (zone_id <$> zones m) -> z ∈ zones m ->
  let o := (eval_zone (roles_by_id m) (regulations_by_type m)
              (tally m presence) now cache z) in
  zone_entry (zones_of (evaluate_zone_compliance m presence now cache)) (zone_id z)
    = Some o.1 /\
  cache_of (evaluate_zone_compliance m presence now cache) !! zone_id z
    = o.2 !! zone_id z.
Proof.
  intros Hnd Hin. rewrite evaluate_unfold. cbn.
  by apply (eval_loop_zone _ _ _ _ (zones m) ([], cache) z).
Qed.

Lemma demo_zone_ids : NoDup (zone_id <$> zones demo_model).
Proof. by_computation. Qed.

Lemma recent_presence_seen m presence z :
  recent_presence m presence z = true ->
  exists seen_ts, last_seen_of (tally m presence) (zone_id z) = Some seen_ts.
Proof.
  unfold recent_presence. intros H. apply bool_decide_eq_true in H as [x Hx]. eauto.
Qed.

Lemma recent_presence_none m presence z :
  recent_presence m presence z = false ->
  last_seen_of (tally m presence) (zone_id z) = None.
Proof.
  unfold recent_presence. intros H. apply bool_decide_eq_false in H.
  destruct (last_seen_of _ _) eqn:E; [|reflexivity].
  exfalso. apply H. eauto.
Qed.

(** *** The compliance scenarios of the specification *)

(** A visitor in a zone that forbids visitors, then the same violation
    after more than the 60 seconds of the default threshold. *)
Example scenario_forbidden_visitor :
  let p := [seen "visitor" "cam1" 0] in
  let r1 := evaluate_zone_compliance demo_model p (seconds 1) ∅ in
  let r2 := evaluate_zone_compliance demo_model p (seconds 62) (cache_of r1) in
  zone_entry (zones_of r1) "vault" =
    Some (mkZoneOut "vault" (Some "REG-1") UNAUTHORIZED_PERSON
            ["forbidden:visitor"; "unauthorized:visitor"; "missing:guard"]
            (seconds 1) "high") /\
  out_state <$> zone_entry (zones_of r2) "vault" = Some CRITICAL_VIOLATION.
Proof. vm_compute. split; reflexivity. Qed.

(** No guard where one is required. *)
Example scenario_understaffing :
  zone_entry
    (zones_of (evaluate_zone_compliance demo_model [seen "janitor" "cam1" 0] (seconds 1) ∅))
    "vault" =
    Some (mkZoneOut "vault" (Some "REG-1") UNDERSTAFFED ["missing:guard"] (seconds 1) "high").
Proof. vm_compute. reflexivity. Qed.

(** *** C4: zones without a regulation *)

(** C4, as amended. A zone whose type has no regulation is emitted with
    state [UNKNOWN] whatever the cache holds, with the one-element
    violations list ["no_regulation"], severity ["info"] and [since] equal
    to the evaluation time, together with the event of that entry; its
    cache slot is left as it was. *)
Theorem no_regulation_unknown m presence now cache z :
  z ∈ zones m ->
  regulation_of m z = None ->
  let r := evaluate_zone_compliance m presence now cache in
  let o := mkZoneOut (zone_id z) None UNKNOWN ["no_regulation"] now "info" in
  o ∈ zones_of r /\
  _event_payload o now ∈ events_of r /\
  (NoDup (zone_id <$> zones m) ->
     zone_entry (zones_of r) (zone_id z) = Some o /\
     cache_of r !! zone_id z = cache !! zone_id z).
Proof.
  intros Hin Hreg r o.
  assert (o ∈ zones_of r) as Ho.
  { subst r. rewrite evaluate_unfold. cbn.
    destruct (eval_loop_member (roles_by_id m) (regulations_by_type m)
                (tally m presence) now (zones m) ([], cache) z Hin) as [c Hc].
    rewrite eval_zone_no_regulation in Hc by exact Hreg. exact Hc. }
  split; [exact Ho|]. split.
  - subst r. rewrite events_of_evaluate.
    apply (list_elem_of_fmap_2 (fun o' => _event_payload o' now)). exact Ho.
  - intros Hnd.
    destruct (evaluate_zone m presence now cache z Hnd Hin) as [He Hc].
    rewrite eval_zone_no_regulation in He, Hc by exact Hreg. by split.
Qed.

Lemma no_regulation_unknown_witness :
  mkZoneOut "yard" None UNKNOWN ["no_regulation"] 1000 "info"
    ∈ zones_of (evaluate_zone_compliance demo_model [] 1000 ∅).
Proof.
  apply (no_regulation_unknown demo_model [] 1000 ∅ yard).
  - by_computation.
  - vm_compute. reflexivity.
Defined.

(** C4, as stated, fails: a zone without regulation and without cache
    entry is emitted as [UNKNOWN] with a non-empty violations list. *)
Lemma no_regulation_counterexample :
  ~ no_regulation_as_stated demo_model [] 1000 ∅ yard.
Proof.
  intros H. destruct H as (o & Ho & Hst & _ & Hv); [vm_compute; reflexivity|].
  vm_compute in Ho. injection Ho as <-. discriminate Hv.
Qed.

(** *** C3: the escalation boundary *)

(** C3, as amended. In a model whose zone ids are pairwise distinct, a
    zone that is computed [UNDERSTAFFED] and is cached as [UNDERSTAFFED]
    since [s] keeps [s]; it is emitted as [CRITICAL_VIOLATION] exactly when
    [total_seconds()] of the elapsed time, a binary64 value, is strictly
    greater than the threshold, and as [UNDERSTAFFED] otherwise. For a
    threshold below [2 ^ 53] in absolute value: it is [UNDERSTAFFED] when
    the elapsed time is the threshold or less, and [CRITICAL_VIOLATION]
    when it is at least one second more. *)
Theorem escalation_boundary_exclusive m presence now cache z reg s ls :
  NoDup (zone_id <$> zones m) ->
  z ∈ zones m ->
  regulation_of m z = Some reg ->
  recent_presence m presence z = true ->
  pre_escalation_state m presence z reg = UNDERSTAFFED ->
  cache !! zone_id z = Some (mkZoneState UNDERSTAFFED s ls) ->
  exists o,
    zone_entry (zones_of (evaluate_zone_compliance m presence now cache)) (zone_id z)
      = Some o /\
    out_since o = s /\
    (out_state o = CRITICAL_VIOLATION \/ out_state o = UNDERSTAFFED) /\
    (out_state o = CRITICAL_VIOLATION <->
       (inject_Z (understaffed_threshold reg) < total_seconds (now - s))%Q) /\
    (Z.abs (understaffed_threshold reg) < 2 ^ 53 ->
       (now - s <= seconds (understaffed_threshold reg) ->
          out_state o = UNDERSTAFFED) /\
       (seconds (understaffed_threshold reg + 1) <= now - s ->
          out_state o = CRITICAL_VIOLATION)).
Proof.
  intros Hnd Hin Hreg Hrec Hpre Hc.
  destruct (recent_presence_seen _ _ _ Hrec) as [seen_ts Hseen].
  destruct (evaluate_zone m presence now cache z Hnd Hin) as [He _].
  rewrite (eval_zone_presence _ _ _ _ _ _ reg seen_ts Hreg Hseen) in He.
  unfold pre_escalation_state in Hpre. rewrite Hpre, Hc in He.
  eexists. split; [exact He|]. cbn.
  destruct (decide (UNDERSTAFFED = UNDERSTAFFED)) as [_|Hn]; [|done].
  rewrite escalate_understaffed. fold (understaffed_threshold reg).
  split; [reflexivity|].
  destruct (elapsed_exceeds now s (understaffed_threshold reg)) eqn:E.
  - apply elapsed_exceeds_true in E.
    split; [by left|]. split; [by split|].
    intros Habs. split; [|done]. intros Hle. exfalso.
    apply (Qlt_not_le _ _ E).
    rewrite <- (total_seconds_whole (understaffed_threshold reg)) by lia.
    by apply total_seconds_mono.
  - apply elapsed_exceeds_false in E.
    split; [by right|]. split.
    { split; [discriminate|]. intros H. exfalso. apply (Qlt_not_le _ _ H E). }
    intros Habs. split; [done|]. intros Hge. exfalso.
    assert (inject_Z (understaffed_threshold reg + 1)
              <= inject_Z (understaffed_threshold reg))%Q as Hle.
    { rewrite <- (total_seconds_whole (understaffed_threshold reg + 1)) by lia.
      eapply Qle_trans; [apply total_seconds_mono; exact Hge|exact E]. }
    rewrite <- Zle_Qle in Hle. lia.
Qed.

Lemma escalation_boundary_exclusive_witness :
  let r1 := evaluate_zone_compliance anonymous_model
              [sighting "cam1" (seconds 999)] (seconds 1000) ∅ in
  exists o,
    zone_entry
      (zones_of (evaluate_zone_compliance anonymous_model
                   [sighting "cam1" (seconds 1119)] (seconds 1120 + 1) (cache_of r1)))
      "vault" = Some o /\
    out_since o = seconds 1000 /\
    (out_state o = CRITICAL_VIOLATION \/ out_state o = UNDERSTAFFED) /\
    (out_state o = CRITICAL_VIOLATION <->
       (inject_Z (understaffed_threshold anonymous_regulation)
          < total_seconds (seconds 1120 + 1 - seconds 1000))%Q) /\
    (Z.abs (understaffed_threshold anonymous_regulation) < 2 ^ 53 ->
       (seconds 1120 + 1 - seconds 1000
          <= seconds (understaffed_threshold anonymous_regulation) ->
          out_state o = UNDERSTAFFED) /\
       (seconds (understaffed_threshold anonymous_regulation + 1)
          <= seconds 1120 + 1 - seconds 1000 ->
          out_state o = CRITICAL_VIOLATION)).
Proof.
  intros r1.
  apply (escalation_boundary_exclusive anonymous_model
           [sighting "cam1" (seconds 1119)] (seconds 1120 + 1) (cache_of r1)
           vault anonymous_regulation (seconds 1000) (Some (seconds 999))).
  - by_computation.
  - by_computation.
  - vm_compute. reflexivity.
  - vm_compute. reflexivity.
  - vm_compute. reflexivity.
  - vm_compute. reflexivity.
Defined.

(** The same zone at the threshold and one microsecond after it:
    [UNDERSTAFFED], then critical. *)
Example escalation_one_microsecond_later :
  let r1 := evaluate_zone_compliance anonymous_model
              [sighting "cam1" (seconds 999)] (seconds 1000) ∅ in
  out_state <$> zone_entry (zones_of r1) "vault" = Some UNDERSTAFFED /\
  cache_of r1 !! "vault"
    = Some (mkZoneState UNDERSTAFFED (seconds 1000) (Some (seconds 999))) /\
  out_state <$> zone_entry
    (zones_of (evaluate_zone_compliance anonymous_model
                 [sighting "cam1" (seconds 1119)] (seconds 1120) (cache_of r1)))
    "vault" = Some UNDERSTAFFED /\
  out_state <$> zone_entry
    (zones_of (evaluate_zone_compliance anonymous_model
                 [sighting "cam1" (seconds 1119)] (seconds 1120 + 1) (cache_of r1)))
    "vault" = Some CRITICAL_VIOLATION.
Proof. vm_compute. repeat split; reflexivity. Qed.

(** C3, as stated, fails. The rows are those of the presence query, without
    payload. A first evaluation at 1000 s finds the zone [UNDERSTAFFED] and
    caches it; an evaluation exactly 120 seconds later, the default
    threshold, still emits [UNDERSTAFFED]. *)
Lemma escalation_inclusive_counterexample :
  ~ escalation_inclusive_as_stated anonymous_model
      [sighting "cam1" (seconds 1119)] (seconds 1120)
      (cache_of (evaluate_zone_compliance anonymous_model
                   [sighting "cam1" (seconds 999)] (seconds 1000) ∅))
      vault.
Proof.
  intros H.
  destruct (H anonymous_regulation (seconds 1000) (Some (seconds 999))) as (o & Ho & Hst);
    try (vm_compute; reflexivity).
  vm_compute in Ho. injection Ho as <-. discriminate Hst.
Qed.

(** *** C2: hysteresis of [since] *)

(** What the branch without recent events does with [since]: once the zone
    has a cache entry, the cached value is emitted again. *)
Lemma no_presence_since_carried m presence now cache z reg p :
  NoDup (zone_id <$> zones m) -> z ∈ zones m ->
  regulation_of m z = Some reg ->
  recent_presence m presence z = false ->
  cache !! zone_id z = Some p ->
  exists o,
    zone_entry (zones_of (evaluate_zone_compliance m presence now cache)) (zone_id z)
      = Some o /\
    out_state o = UNKNOWN /\ out_since o = since p.
Proof.
  intros Hnd Hin Hreg Hrec Hc.
  destruct (evaluate_zone m presence now cache z Hnd Hin) as [He _].
  rewrite (eval_zone_no_presence _ _ _ _ _ _ reg Hreg
             (recent_presence_none _ _ _ Hrec)), Hc in He.
  eexists. split; [exact He|]. by split.
Qed.

(** C2, as amended. For a zone evaluated twice in a row. With a
    regulation: when the second evaluation finds recent presence, the
    emitted [since] is the one of the first evaluation if the state computed
    now (before escalation) is the state the first evaluation emitted and
    cached, and the second evaluation time otherwise; when it finds no
    recent presence and emits the same state as the first, [since] is the
    same. Without a regulation: [since] is the evaluation time, each time. *)
Theorem hysteresis_against_cache m p1 p2 now1 now2 cache z :
  NoDup (zone_id <$> zones m) ->
  z ∈ zones m ->
  let r1 := evaluate_zone_compliance m p1 now1 cache in
  let r2 := evaluate_zone_compliance m p2 now2 (cache_of r1) in
  exists o1 o2,
    zone_entry (zones_of r1) (zone_id z) = Some o1 /\
    zone_entry (zones_of r2) (zone_id z) = Some o2 /\
    match regulation_of m z with
    | Some reg =>
        if recent_presence m p2 z then
          out_since o2 =
            if decide (out_state o1 = pre_escalation_state m p2 z reg)
            then out_since o1 else now2
        else
          out_state o2 = out_state o1 -> out_since o2 = out_since o1
    | None => out_since o1 = now1 /\ out_since o2 = now2
    end.
Proof.
  intros Hnd Hin r1 r2.
  destruct (evaluate_zone m p1 now1 cache z Hnd Hin) as [He1 Hc1].
  destruct (evaluate_zone m p2 now2 (cache_of r1) z Hnd Hin) as [He2 _].
  fold r1 in He1, Hc1. fold r2 in He2.
  eexists _, _. split; [exact He1|]. split; [exact He2|].
  destruct (regulation_of m z) as [reg|] eqn:Hreg.
  - rewrite (eval_zone_cached _ _ _ _ _ _ reg Hreg) in Hc1.
    destruct (recent_presence m p2 z) eqn:Hrec.
    + destruct (recent_presence_seen _ _ _ Hrec) as [seen_ts Hseen].
      rewrite (eval_zone_presence _ _ _ _ _ _ reg seen_ts Hreg Hseen), Hc1.
      reflexivity.
    + intros _.
      rewrite (eval_zone_no_presence _ _ _ _ _ _ reg Hreg
                 (recent_presence_none _ _ _ Hrec)), Hc1.
      reflexivity.
  - rewrite !eval_zone_no_regulation by exact Hreg. by split.
Qed.

Lemma hysteresis_against_cache_witness :
  let p := [seen "janitor" "cam1" 900] in
  let r1 := evaluate_zone_compliance demo_model p 1000 ∅ in
  let r2 := evaluate_zone_compliance demo_model p 2000 (cache_of r1) in
  exists o1 o2,
    zone_entry (zones_of r1) "vault" = Some o1 /\
    zone_entry (zones_of r2) "vault" = Some o2 /\
    match regulation_of demo_model vault with
    | Some reg =>
        if recent_presence demo_model p vault then
          out_since o2 =
            if decide (out_state o1 = pre_escalation_state demo_model p vault reg)
            then out_since o1 else 2000
        else
          out_state o2 = out_state o1 -> out_since o2 = out_since o1
    | None => out_since o1 = 1000 /\ out_since o2 = 2000
    end.
Proof.
  intros p.
  apply (hysteresis_against_cache demo_model p p 1000 2000 ∅ vault).
  - by_computation.
  - by_computation.
Defined.

(** C2, as stated, fails: a zone without regulation is emitted as [UNKNOWN]
    on both evaluations with two different [since], and a zone without
    recent events goes from [INITIALIZING] to [UNKNOWN] with the [since] of
    the first evaluation. *)
Lemma hysteresis_counterexample :
  ~ hysteresis_as_stated demo_model [] [] 1000 2000 ∅ yard /\
  ~ hysteresis_as_stated demo_model [] [] 1000 2000 ∅ vault.
Proof.
  split; intros H; unfold hysteresis_as_stated in H; vm_compute in H.
  - destruct (H _ _ eq_refl eq_refl) as [H1 _]. specialize (H1 eq_refl). discriminate H1.
  - destruct (H _ _ eq_refl eq_refl) as [_ H2].
    assert (UNKNOWN <> INITIALIZING) as Hne by discriminate.
    specialize (H2 Hne). discriminate H2.
Qed.

(** *** C10: a critical state does not persist *)

Lemma escalate_critical esc computed now state_since :
  escalate esc computed now state_since = CRITICAL_VIOLATION ->
  computed <> CRITICAL_VIOLATION ->
  computed = UNDERSTAFFED \/ computed = OVERSTAFFED \/ computed = UNAUTHORIZED_PERSON.
Proof.
  unfold escalate. intros H Hne.
  destruct (decide (computed = UNDERSTAFFED ∨ computed = OVERSTAFFED)) as [[->| ->]|_];
    auto.
  destruct (decide (computed = UNAUTHORIZED_PERSON)) as [->|_]; auto.
  contradiction.
Qed.

(** C10, as amended. In a model whose zone ids are pairwise distinct, for
    a zone whose regulation has escalation thresholds that are not
    negative: when one evaluation emits [CRITICAL_VIOLATION] for the zone
    (so that the state it computed was [UNDERSTAFFED], [OVERSTAFFED] or
    [UNAUTHORIZED_PERSON]), the next evaluation does not emit
    [CRITICAL_VIOLATION]; if it still finds presence in the zone, it emits
    the state it computes, with [since] reset to its own evaluation time. *)
Theorem critical_not_persistent m p1 p2 now1 now2 cache z reg o1 :
  NoDup (zone_id <$> zones m) ->
  z ∈ zones m ->
  regulation_of m z = Some reg ->
  0 <= understaffed_threshold reg ->
  0 <= unauthorized_threshold reg ->
  let r1 := evaluate_zone_compliance m p1 now1 cache in
  let r2 := evaluate_zone_compliance m p2 now2 (cache_of r1) in
  zone_entry (zones_of r1) (zone_id z) = Some o1 ->
  out_state o1 = CRITICAL_VIOLATION ->
  (pre_escalation_state m p1 z reg = UNDERSTAFFED \/
   pre_escalation_state m p1 z reg = OVERSTAFFED \/
   pre_escalation_state m p1 z reg = UNAUTHORIZED_PERSON) /\
  exists o2,
    zone_entry (zones_of r2) (zone_id z) = Some o2 /\
    out_state o2 <> CRITICAL_VIOLATION /\
    (recent_presence m p2 z = true ->
       out_state o2 = pre_escalation_state m p2 z reg /\ out_since o2 = now2).
Proof.
  intros Hnd Hin Hreg Hu Ha r1 r2 Ho1 Hcrit.
  destruct (evaluate_zone m p1 now1 cache z Hnd Hin) as [He1 Hc1].
  rewrite (eval_zone_cached _ _ _ _ _ _ reg Hreg) in Hc1.
  fold r1 in He1, Hc1. rewrite Ho1 in He1. injection He1 as He1.
  rewrite <- He1, Hcrit in Hc1.
  split.
  - destruct (last_seen_of (tally m p1) (zone_id z)) as [seen_ts|] eqn:Hseen.
    + rewrite (eval_zone_presence _ _ _ _ _ _ reg seen_ts Hreg Hseen) in He1.
      rewrite He1 in Hcrit. cbn in Hcrit.
      apply escalate_critical in Hcrit; [exact Hcrit|apply compute_state_range].
    + rewrite (eval_zone_no_presence _ _ _ _ _ _ reg Hreg Hseen) in He1.
      rewrite He1 in Hcrit. cbn in Hcrit. destruct (cache !! zone_id z); discriminate.
  - destruct (evaluate_zone m p2 now2 (cache_of r1) z Hnd Hin) as [He2 _].
    fold r2 in He2. eexists. split; [exact He2|].
    destruct (recent_presence m p2 z) eqn:Hrec.
    + destruct (recent_presence_seen _ _ _ Hrec) as [seen_ts Hseen].
      rewrite (eval_zone_presence _ _ _ _ _ _ reg seen_ts Hreg Hseen), Hc1. cbn.
      pose proof (compute_state_range (roles_by_id m) reg (type z)
        (default [] (zone_counts (tally m p2) !! zone_id z))) as Hrange.
      destruct (decide (CRITICAL_VIOLATION = _)) as [Heq|_]; [by rewrite <- Heq in Hrange|].
      rewrite escalate_fresh by assumption.
      split; [exact Hrange|]. intros _. by split.
    + rewrite (eval_zone_no_presence _ _ _ _ _ _ reg Hreg
                 (recent_presence_none _ _ _ Hrec)), Hc1. cbn.
      split; [discriminate|]. intros; discriminate.
Qed.

Lemma critical_not_persistent_witness :
  let r0 := evaluate_zone_compliance anonymous_model
              [sighting "cam1" (seconds 999)] (seconds 1000) ∅ in
  let p := [sighting "cam1" (seconds 1120)] in
  let r1 := evaluate_zone_compliance anonymous_model p (seconds 1121) (cache_of r0) in
  let r2 := evaluate_zone_compliance anonymous_model p (seconds 1131) (cache_of r1) in
  exists o2,
    zone_entry (zones_of r2) "vault" = Some o2 /\
    out_state o2 <> CRITICAL_VIOLATION /\
    (recent_presence anonymous_model p vault = true ->
       out_state o2 = pre_escalation_state anonymous_model p vault anonymous_regulation /\
       out_since o2 = seconds 1131).
Proof.
  intros r0 p r1 r2.
  apply (critical_not_persistent anonymous_model p p (seconds 1121) (seconds 1131)
           (cache_of r0) vault anonymous_regulation
           (mkZoneOut "vault" (Some "REG-1") CRITICAL_VIOLATION ["missing:guard"]
              (seconds 1000) "high")).
  - by_computation.
  - by_computation.
  - vm_compute. reflexivity.
  - vm_compute. discriminate.
  - vm_compute. discriminate.
  - vm_compute. reflexivity.
  - reflexivity.
Defined.

(** Three evaluations in a row: understaffed, critical after more than
    120 seconds, understaffed again with a new [since]. *)
Example scenario_critical_then_reset :
  let r0 := evaluate_zone_compliance anonymous_model
              [sighting "cam1" (seconds 999)] (seconds 1000) ∅ in
  let p := [sighting "cam1" (seconds 1120)] in
  let r1 := evaluate_zone_compliance anonymous_model p (seconds 1121) (cache_of r0) in
  let r2 := evaluate_zone_compliance anonymous_model p (seconds 1131) (cache_of r1) in
  (fun o => (out_state o, out_since o)) <$> zone_entry (zones_of r0) "vault"
    = Some (UNDERSTAFFED, seconds 1000) /\
  (fun o => (out_state o, out_since o)) <$> zone_entry (zones_of r1) "vault"
    = Some (CRITICAL_VIOLATION, seconds 1000) /\
  (fun o => (out_state o, out_since o)) <$> zone_entry (zones_of r2) "vault"
    = Some (UNDERSTAFFED, seconds 1131).
Proof. vm_compute. repeat split; reflexivity. Qed.

(** C10, as stated, fails when an escalation threshold is below zero. The
    rows are those of the presence query, without payload, and the policy
    does not declare the role ["unknown"]: the zone is computed
    [UNAUTHORIZED_PERSON] on both evaluations, each resets [since] to its
    own time, and the elapsed time 0.0 is greater than -1 on both: the zone
    is emitted as [CRITICAL_VIOLATION] twice in a row. *)
Lemma critical_persists_counterexample :
  ~ critical_never_persists_as_stated hasty_model
      [sighting "cam1" (seconds 9)] [sighting "cam1" (seconds 9)]
      (seconds 10) (seconds 11) ∅ vault.
Proof.
  intros H. unfold critical_never_persists_as_stated in H.
  destruct (H hasty_regulation
              (mkZoneOut "vault" (Some "REG-1") CRITICAL_VIOLATION
                 ["unauthorized:unknown"; "missing:guard"] (seconds 10) "high"))
    as (o2 & Ho2 & Hst & _); try (vm_compute; reflexivity).
  vm_compute in Ho2, Hst. injection Ho2 as <-. discriminate Hst.
Qed.

Example scenario_hasty_policy :
  let p := [sighting "cam1" (seconds 9)] in
  let r1 := evaluate_zone_compliance hasty_model p (seconds 10) ∅ in
  let r2 := evaluate_zone_compliance hasty_model p (seconds 11) (cache_of r1) in
  pre_escalation_state hasty_model p vault hasty_regulation = UNAUTHORIZED_PERSON /\
  (fun o => (out_state o, out_since o)) <$> zone_entry (zones_of r1) "vault"
    = Some (CRITICAL_VIOLATION, seconds 10) /\
  (fun o => (out_state o, out_since o)) <$> zone_entry (zones_of r2) "vault"
    = Some (CRITICAL_VIOLATION, seconds 11).
Proof. vm_compute. repeat split; reflexivity. Qed.

(** A negative threshold is the one case in which a state that has just
    begun is escalated at once, on every evaluation. *)
Lemma escalate_negative_threshold now :
  escalate {[ "understaffed" := -1 ]} UNDERSTAFFED now now = CRITICAL_VIOLATION.
Proof.
  rewrite escalate_understaffed. unfold elapsed_exceeds.
  replace (now - now) with 0 by lia. reflexivity.
Qed.

(** *** C9: the last-seen time of a zone *)

Lemma empty_tally_last_seen m zid : last_seen_of (empty_tally m) zid = None.
Proof.
  unfold last_seen_of, empty_tally. cbn.
  assert (forall (zs : list Zone) (acc : gmap string (option Z)),
            default None (acc !! zid) = None ->
            default None (foldl (fun a z => <[zone_id z := None]> a) acc zs !! zid) = None)
    as Hfold.
  { induction zs as [|z zs IH]; intros acc Hacc; cbn; [exact Hacc|].
    apply IH. destruct (decide (zone_id z = zid)) as [->|Hne].
    - by rewrite lookup_insert_eq.
    - by rewrite lookup_insert_ne. }
  apply Hfold. by rewrite lookup_empty.
Qed.

Lemma tally_step_last_seen c2z t p zid :
  last_seen_of (tally_step c2z t p) zid =
    if bool_decide (c2z !! default "" (source_id p) = Some zid ∧ zid ≠ "")
    then Some (last_seen_ts p) else last_seen_of t zid.
Proof.
  unfold tally_step, last_seen_of.
  destruct (c2z !! default "" (source_id p)) as [zid'|] eqn:Hz.
  - destruct (decide (zid' = "")) as [->|Hne].
    + rewrite bool_decide_eq_false_2; [reflexivity|].
      intros [Heq Hnz]. congruence.
    + cbn. destruct (decide (zid' = zid)) as [->|Hne'].
      * rewrite bool_decide_eq_true_2 by done. by rewrite lookup_insert_eq.
      * rewrite bool_decide_eq_false_2 by (intros [Heq _]; congruence).
        by rewrite lookup_insert_ne.
  - rewrite bool_decide_eq_false_2; [reflexivity|]. intros [Heq _]. discriminate.
Qed.

(** The value kept for a zone is the [last_seen_ts] of the last record of
    the snapshot that maps to it: every record overwrites the one before. *)
Lemma tally_last_seen m presence zid :
  last_seen_of (tally m presence) zid =
    last_seen_ts <$> last (filter (fun p => maps_to m zid p = true) presence).
Proof.
  induction presence as [|p presence IH] using rev_ind.
  - apply empty_tally_last_seen.
  - unfold tally. rewrite foldl_snoc. fold (tally m presence).
    rewrite tally_step_last_seen, filter_app.
    destruct (bool_decide _) eqn:Hmap.
    + rewrite filter_cons_True by exact Hmap. rewrite filter_nil, last_snoc.
      reflexivity.
    + rewrite filter_cons_False by (unfold maps_to; rewrite Hmap; discriminate).
      rewrite filter_nil, app_nil_r. exact IH.
Qed.

(** The test of line 143 only asks whether some record maps to the zone,
    and on that the stored value and the most recent one agree. *)
Lemma last_seen_none_iff m presence zid :
  last_seen_of (tally m presence) zid = None <->
  most_recent_last_seen m presence zid = None.
Proof.
  rewrite tally_last_seen. unfold most_recent_last_seen.
  destruct (filter _ presence) as [|p l] eqn:E.
  - split; reflexivity.
  - split; intros H; exfalso.
    + destruct (last (p :: l)) eqn:El; [discriminate|].
      by apply last_None in El.
    + cbn in H. destruct (foldr _ _ l); discriminate.
Qed.

(** C9. Most-recent last-seen per zone, on a snapshot in the newest-first
    order of [get_current_presence]: two records of the same zone, seen at
    200 and at 100, leave 100 as the last-seen time of the zone, while the
    most recent of the two is 200. *)
Theorem last_seen_is_not_most_recent :
  let snapshot := [mkPresence (Some "cam1") None 200; mkPresence (Some "cam1") None 100] in
  last_seen_of (tally demo_model snapshot) "vault" = Some 100 /\
  most_recent_last_seen demo_model snapshot "vault" = Some 200.
Proof. vm_compute. split; reflexivity. Qed.

End ComplianceFacts.


(** * Further properties of the behaviour rules engine *)

Module BehaviorExtra.

Import Behavior.
Local Open Scope Q_scope.

(** The run over a list of ticks, one tick unrolled at the front. *)
Lemma run_acc cfg ticks : forall acc st,
  fold_left
    (fun acc tk =>
       let '(s, st') := update_behavior_state cfg (snd acc) (fst tk) (snd tk) in
       (fst acc ++ [s], st'))
    ticks (acc, st)
  = (acc ++ fst (run cfg st ticks), snd (run cfg st ticks)).
Proof.
  unfold run. induction ticks as [|tk ticks IH]; intros acc st; cbn.
  - by rewrite app_nil_r.
  - destruct (update_behavior_state cfg st (fst tk) (snd tk)) as [s st'] eqn:E. cbn.
    rewrite (IH (acc ++ [s]) st'), (IH [s] st'). cbn.
    by rewrite <- app_assoc.
Qed.

Lemma run_cons cfg st sig now ticks :
  run cfg st ((sig, now) :: ticks) =
    (fst (update_behavior_state cfg st sig now)
       :: fst (run cfg (snd (update_behavior_state cfg st sig now)) ticks),
     snd (run cfg (snd (update_behavior_state cfg st sig now)) ticks)).
Proof.
  unfold run at 1. cbn.
  destruct (update_behavior_state cfg st sig now) as [s st'] eqn:E. cbn.
  by rewrite run_acc.
Qed.

(** A stamp other than zero survives any number of ticks on which its
    condition holds. *)
Lemma run_keeps_stamp cfg k t0 ticks : forall st,
  tracker_of k st = Some t0 -> ~ t0 == 0 ->
  Forall (fun tk => condition_of k (fst tk) = true) ticks ->
  tracker_of k (snd (run cfg st ticks)) = Some t0.
Proof.
  induction ticks as [|[sig now] ticks IH]; intros st Ht Hnz Hall.
  - exact Ht.
  - apply Forall_cons in Hall as [Hc Hall]. rewrite run_cons. cbn [snd].
    apply IH; [|exact Hnz|exact Hall].
    by apply BehaviorFacts.since_kept.
Qed.

(** An elapsed time is never negative, and never below the rounded
    difference. *)
Lemma since_nonneg now s : 0 <= _since now s.
Proof.
  unfold _since. destruct s as [t|]; [|apply Qle_refl]. cbn zeta.
  destruct (Qle_bool (Binary64.round64 (now - t)) 0) eqn:E; [apply Qle_refl|].
  apply Qlt_le_weak, Qnot_le_lt. intros Hle. apply Qle_bool_iff in Hle. congruence.
Qed.

Lemma since_rounded now t : Binary64.round64 (now - t) <= _since now (Some t).
Proof.
  unfold _since. cbn zeta.
  destruct (Qle_bool (Binary64.round64 (now - t)) 0) eqn:E.
  - by apply Qle_bool_iff in E.
  - apply Qle_refl.
Qed.

(** A whole number of seconds below [2 ^ 53] is a binary64 value, and
    rounding is monotone: once that many seconds have passed, the computed
    elapsed time has reached it. *)
Lemma since_reaches now t n :
  (n <= 2 ^ 53)%Z -> inject_Z n <= now - t -> inject_Z n <= _since now (Some t).
Proof.
  intros Hn Hle. destruct (Z_le_gt_dec n 0) as [Hneg|Hpos].
  - apply Qle_trans with 0; [|apply since_nonneg].
    change 0 with (inject_Z 0). by rewrite <- Zle_Qle.
  - eapply Qle_trans; [|apply since_rounded].
    rewrite <- (Binary64Facts.round64_Z (inject_Z n) n) at 1; [|reflexivity|lia].
    by apply Binary64Facts.round64_mono.
Qed.

Lemma ge_int_zero_false n : (0 < n)%Z -> ge_int 0 n = false.
Proof.
  intros Hn. apply BehaviorFacts.ge_int_false.
  change 0 with (inject_Z 0). by rewrite <- Zlt_Qlt.
Qed.

(** X1. After a tick, a tracker is set exactly when its condition held on
    that tick; the two trackers of a pair are never both set. *)
Theorem trackers_follow_conditions cfg st sig now :
  let st' := snd (update_behavior_state cfg st sig now) in
  (forall k, is_Some (tracker_of k st') <-> condition_of k sig = true) /\
  (forall k, tracker_of k st' = None \/ tracker_of (opposite k) st' = None).
Proof.
  intros st'. subst st'. split; intros k.
  - destruct (condition_of k sig) eqn:Hc.
    + destruct (BehaviorFacts.tracker_condition cfg k st sig now Hc) as [-> _].
      split; [done|]. intros _. eauto.
    + rewrite (BehaviorFacts.since_cleared cfg k st sig now Hc).
      split; [intros [x Hx]; discriminate|discriminate].
  - destruct (condition_of k sig) eqn:Hc.
    + right. by destruct (BehaviorFacts.tracker_condition cfg k st sig now Hc) as [_ ->].
    + left. by apply BehaviorFacts.since_cleared.
Qed.

(** X2. The state left by a call always stores the status the call
    returned, also on the branch that returns the previous state. *)
Theorem last_state_is_output cfg st sig now :
  last_state (snd (update_behavior_state cfg st sig now))
    = Some (fst (update_behavior_state cfg st sig now)).
Proof.
  unfold update_behavior_state.
  rewrite BehaviorFacts.last_state_update_trackers.
  destruct (ge_int (no_face_s st sig now) _); [reflexivity|].
  destruct (face_present sig); cbn [andb].
  - destruct (ge_int (no_motion_s st sig now) _); [reflexivity|].
    destruct (ge_int (motion_active_s st sig now) _); [reflexivity|].
    destruct (last_state st) as [[| |]|] eqn:Hl; cbn;
      rewrite ?BehaviorFacts.last_state_update_trackers, ?Hl;
      try reflexivity; destruct (motion_active sig); reflexivity.
  - rewrite !andb_false_r. reflexivity.
Qed.

(** X3. Absence is not debounced: a tick without a face is answered [away]
    at once, whatever [away_seconds] is and however short the absence. *)
Theorem face_absent_is_away cfg st sig now :
  face_present sig = false ->
  update_behavior_state cfg st sig now
    = (away, set_last_state (update_trackers st sig now) away).
Proof.
  intros Hf. unfold update_behavior_state. rewrite Hf.
  rewrite !andb_false_l, !andb_false_r.
  destruct (ge_int _ _); reflexivity.
Qed.

Lemma face_absent_is_away_witness :
  fst (update_behavior_state default_config
         (mkBehaviorState (Some active) (Some 100) None (Some 100) None)
         (mkBehaviorSignals false 5 2) 101) = away.
Proof.
  rewrite (face_absent_is_away default_config
             (mkBehaviorState (Some active) (Some 100) None (Some 100) None)
             (mkBehaviorSignals false 5 2) 101); reflexivity.
Defined.

(** X4. With a positive [away_seconds], a tick with a face present is never
    answered [away]. *)
Theorem face_present_not_away cfg st sig now :
  face_present sig = true ->
  (0 < away_seconds cfg)%Z ->
  fst (update_behavior_state cfg st sig now) <> away.
Proof.
  intros Hf Haway. unfold update_behavior_state.
  rewrite (BehaviorFacts.no_face_s_present _ _ _ Hf), (ge_int_zero_false _ Haway), Hf.
  rewrite BehaviorFacts.last_state_update_trackers. cbn [andb].
  destruct (ge_int (no_motion_s st sig now) _); [discriminate|].
  destruct (ge_int (motion_active_s st sig now) _); [discriminate|].
  destruct (last_state st) as [[| |]|]; cbn; try discriminate;
    destruct (motion_active sig); discriminate.
Qed.

Lemma face_present_not_away_witness :
  fst (update_behavior_state default_config
         (mkBehaviorState (Some away) None (Some 1) None None)
         (mkBehaviorSignals true 0 2) 5000) <> away.
Proof.
  apply (face_present_not_away default_config
           (mkBehaviorState (Some away) None (Some 1) None None)
           (mkBehaviorSignals true 0 2) 5000); reflexivity.
Defined.

(** The stamp a tracker holds after a tick is the old stamp or the time of
    the tick. *)
Lemma or_else_cases (a : option Q) (now : Q) :
  or_else a now = now \/ a = Some (or_else a now).
Proof.
  unfold or_else. destruct a as [x|]; [|by left].
  destruct (truthy x); [by right|by left].
Qed.

Lemma since_future now stamp : now <= stamp -> _since now (Some stamp) = 0.
Proof.
  intros H. unfold _since. cbn zeta.
  destruct (Qle_bool (Binary64.round64 (now - stamp)) 0) eqn:E; [reflexivity|].
  assert (Binary64.round64 (now - stamp) <= 0) as Hle
    by (apply Binary64Facts.round64_nonpos; lra).
  apply Qle_bool_iff in Hle. congruence.
Qed.

(** X5. Time regression: when no stamp of the state lies before the tick
    (the clock stood still or went backwards), every elapsed time is 0, and
    with positive windows a subject with a face present keeps its previous
    [active] or [idle] state. *)
Theorem time_regression_keeps_state cfg st sig now s :
  face_present sig = true ->
  (0 < active_confirm_seconds cfg)%Z ->
  (0 < idle_seconds cfg)%Z ->
  (0 < away_seconds cfg)%Z ->
  last_state st = Some s -> s <> away ->
  (forall k t, tracker_of k st = Some t -> now <= t) ->
  update_behavior_state cfg st sig now = (s, update_trackers st sig now).
Proof.
  intros Hf Hac Hid Haw Hl Hs Hreg.
  assert (forall k, _since now (Some (or_else (tracker_of k st) now)) = 0) as Hzero.
  { intros k. apply since_future.
    destruct (or_else_cases (tracker_of k st) now) as [-> | Hk].
    - apply Qle_refl.
    - by apply (Hreg k). }
  unfold update_behavior_state.
  rewrite (BehaviorFacts.no_face_s_present _ _ _ Hf), (ge_int_zero_false _ Haw), Hf.
  cbn [andb].
  assert (no_motion_s st sig now = 0) as ->.
  { unfold no_motion_s, update_trackers. rewrite Hf.
    destruct (motion_active sig); [reflexivity|]. apply (Hzero NoMotion). }
  assert (motion_active_s st sig now = 0) as ->.
  { unfold motion_active_s, update_trackers. rewrite Hf.
    destruct (motion_active sig); [|reflexivity]. apply (Hzero MotionActive). }
  rewrite (ge_int_zero_false _ Hid), (ge_int_zero_false _ Hac).
  rewrite BehaviorFacts.last_state_update_trackers, Hl.
  destruct s; [reflexivity|reflexivity|contradiction].
Qed.

Lemma time_regression_keeps_state_witness :
  fst (update_behavior_state default_config
         (mkBehaviorState (Some idle) (Some 500) None None (Some 500))
         (mkBehaviorSignals true 9 2) 100) = idle.
Proof.
  rewrite (time_regression_keeps_state default_config
             (mkBehaviorState (Some idle) (Some 500) None None (Some 500))
             (mkBehaviorSignals true 9 2) 100 idle); try reflexivity.
  - discriminate.
  - intros [] t Ht; cbn in Ht; try discriminate;
      injection Ht as <-; vm_compute; discriminate.
Defined.

(** The state reached after a run that began a condition at [t0] and kept
    it: the tracker still holds [t0]. *)
Lemma run_from_flip cfg k st sig0 t0 ticks :
  tracker_of k st = None -> ~ t0 == 0 ->
  condition_of k sig0 = true ->
  Forall (fun tk => condition_of k (fst tk) = true) ticks ->
  tracker_of k (snd (run cfg st ((sig0, t0) :: ticks))) = Some t0.
Proof.
  intros Hnone Hnz Hc0 Hall. rewrite run_cons. cbn [snd].
  apply run_keeps_stamp; [|exact Hnz|exact Hall].
  by destruct (BehaviorFacts.since_flip cfg k st sig0 t0 Hnone Hc0) as [-> _].
Qed.

Lemma or_else_kept t now : ~ t == 0 -> or_else (Some t) now = t.
Proof.
  intros Hnz. unfold or_else, truthy.
  destruct (Qeq_bool t 0) eqn:E; [|reflexivity].
  apply Qeq_bool_iff in E. contradiction.
Qed.

(** X6. Idle is confirmed by sustained stillness: for a window
    [idle_seconds] of at most [2 ^ 53] seconds, when a face is present
    without motion from a first tick at [t0] (other than 0) on every tick
    up to one at least [idle_seconds] later, that tick is answered [idle],
    whatever the state was before. *)
Theorem sustained_stillness_idle cfg st sig0 t0 ticks sig now :
  tracker_of NoMotion st = None ->
  ~ t0 == 0 ->
  condition_of NoMotion sig0 = true ->
  Forall (fun tk => condition_of NoMotion (fst tk) = true) ticks ->
  condition_of NoMotion sig = true ->
  (0 < away_seconds cfg)%Z ->
  (idle_seconds cfg <= 2 ^ 53)%Z ->
  inject_Z (idle_seconds cfg) <= now - t0 ->
  last (fst (run cfg st (((sig0, t0) :: ticks) ++ [(sig, now)]))) = Some idle.
Proof.
  intros Hnone Hnz Hc0 Hall Hc Haw Hrep Hwin.
  rewrite BehaviorFacts.run_snoc. cbn [fst]. rewrite last_snoc. f_equal.
  pose proof (run_from_flip cfg NoMotion st sig0 t0 ticks Hnone Hnz Hc0 Hall) as Hst.
  set (S := snd (run cfg st ((sig0, t0) :: ticks))) in *. cbn in Hst.
  cbn in Hc. apply andb_true_iff in Hc as [Hf Hm]. apply negb_true_iff in Hm.
  unfold update_behavior_state.
  rewrite (BehaviorFacts.no_face_s_present _ _ _ Hf), (ge_int_zero_false _ Haw), Hf.
  cbn [andb].
  assert (ge_int (no_motion_s S sig now) (idle_seconds cfg) = true) as ->; [|reflexivity].
  apply BehaviorFacts.ge_int_true.
  unfold no_motion_s, update_trackers. rewrite Hf, Hm. cbn [no_motion_since].
  rewrite Hst, (or_else_kept _ _ Hnz).
  by apply since_reaches.
Qed.

Lemma sustained_stillness_idle_witness :
  let still := mkBehaviorSignals true 0 2 in
  last (fst (run default_config
               (mkBehaviorState (Some active) (Some 10) None (Some 10) None)
               (((still, 100) :: [(still, 130)]) ++ [(still, 160)]))) = Some idle.
Proof.
  intros still.
  apply (sustained_stillness_idle default_config
           (mkBehaviorState (Some active) (Some 10) None (Some 10) None)
           still 100 [(still, 130)] still 160); try reflexivity.
  - vm_compute. discriminate.
  - repeat constructor.
  - vm_compute. discriminate.
  - vm_compute. discriminate.
Defined.

(** A window that is not a binary64 value can be missed: with
    [idle_seconds = 2 ^ 53 + 1], stillness from 1 to [2 ^ 53 + 2] lasts
    [2 ^ 53 + 1] seconds, but the float subtraction gives [2 ^ 53], and
    the previous state is kept. *)
Example stillness_window_rounded :
  let still := mkBehaviorSignals true 0 2 in
  let cfg := mkBehaviorConfig 30 (2 ^ 53 + 1) 120 in
  inject_Z (idle_seconds cfg) <= inject_Z (2 ^ 53 + 2) - 1 /\
  _since (inject_Z (2 ^ 53 + 2)) (Some 1) == inject_Z (2 ^ 53) /\
  last (fst (run cfg (mkBehaviorState (Some active) (Some 1) None (Some 1) None)
               [(still, 1); (still, inject_Z (2 ^ 53 + 2))])) = Some active.
Proof. vm_compute. repeat split; discriminate. Qed.

(** X7. Active is confirmed by sustained motion: with a positive
    [idle_seconds] and a window [active_confirm_seconds] of at most
    [2 ^ 53] seconds, when a face is present with motion from a first tick
    at [t0] (other than 0) on every tick up to one at least
    [active_confirm_seconds] later, that tick is answered [active],
    whatever the state was before. *)
Theorem sustained_motion_active cfg st sig0 t0 ticks sig now :
  tracker_of MotionActive st = None ->
  ~ t0 == 0 ->
  condition_of MotionActive sig0 = true ->
  Forall (fun tk => condition_of MotionActive (fst tk) = true) ticks ->
  condition_of MotionActive sig = true ->
  (0 < away_seconds cfg)%Z ->
  (0 < idle_seconds cfg)%Z ->
  (active_confirm_seconds cfg <= 2 ^ 53)%Z ->
  inject_Z (active_confirm_seconds cfg) <= now - t0 ->
  last (fst (run cfg st (((sig0, t0) :: ticks) ++ [(sig, now)]))) = Some active.
Proof.
  intros Hnone Hnz Hc0 Hall Hc Haw Hid Hrep Hwin.
  rewrite BehaviorFacts.run_snoc. cbn [fst]. rewrite last_snoc. f_equal.
  pose proof (run_from_flip cfg MotionActive st sig0 t0 ticks Hnone Hnz Hc0 Hall) as Hst.
  set (S := snd (run cfg st ((sig0, t0) :: ticks))) in *. cbn in Hst.
  cbn in Hc. apply andb_true_iff in Hc as [Hf Hm].
  unfold update_behavior_state.
  rewrite (BehaviorFacts.no_face_s_present _ _ _ Hf), (ge_int_zero_false _ Haw), Hf.
  rewrite (BehaviorFacts.no_motion_s_moving _ _ _ Hf Hm), (ge_int_zero_false _ Hid).
  cbn [andb].
  assert (ge_int (motion_active_s S sig now) (active_confirm_seconds cfg) = true) as ->;
    [|reflexivity].
  apply BehaviorFacts.ge_int_true.
  unfold motion_active_s, update_trackers. rewrite Hf, Hm. cbn [motion_active_since].
  rewrite Hst, (or_else_kept _ _ Hnz).
  by apply since_reaches.
Qed.

Lemma sustained_motion_active_witness :
  let moving := mkBehaviorSignals true 5 2 in
  last (fst (run default_config
               (mkBehaviorState (Some idle) (Some 10) None None (Some 10))
               (((moving, 100) :: [(moving, 115)]) ++ [(moving, 130)]))) = Some active.
Proof.
  intros moving.
  apply (sustained_motion_active default_config
           (mkBehaviorState (Some idle) (Some 10) None None (Some 10))
           moving 100 [(moving, 115)] moving 130); try reflexivity.
  - vm_compute. discriminate.
  - repeat constructor.
  - vm_compute. discriminate.
  - vm_compute. discriminate.
Defined.

(** X8. Cold start: with positive confirmation windows, a subject without
    previous state and with a face present is answered at once, [active]
    when the motion value reaches the threshold and [idle] otherwise. *)
Theorem cold_start_immediate cfg st sig now :
  (0 < active_confirm_seconds cfg)%Z ->
  (0 < idle_seconds cfg)%Z ->
  (0 < away_seconds cfg)%Z ->
  last_state st = None ->
  face_present sig = true ->
  fst (update_behavior_state cfg st sig now)
    = if motion_active sig then active else idle.
Proof.
  intros Hac Hid Haw Hl Hf. unfold update_behavior_state.
  rewrite (BehaviorFacts.no_face_s_present _ _ _ Hf), (ge_int_zero_false _ Haw), Hf.
  rewrite BehaviorFacts.last_state_update_trackers, Hl. cbn [andb].
  destruct (motion_active sig) eqn:Hm.
  - rewrite (BehaviorFacts.no_motion_s_moving _ _ _ Hf Hm), (ge_int_zero_false _ Hid).
    destruct (ge_int (motion_active_s st sig now) _); reflexivity.
  - rewrite (BehaviorFacts.motion_active_s_still _ _ _ Hf Hm), (ge_int_zero_false _ Hac).
    destruct (ge_int (no_motion_s st sig now) _); reflexivity.
Qed.

Lemma cold_start_immediate_witness :
  fst (update_behavior_state default_config initial_state
         (mkBehaviorSignals true 5 2) 1000) = active.
Proof.
  apply (cold_start_immediate default_config initial_state
           (mkBehaviorSignals true 5 2) 1000); reflexivity.
Defined.

End BehaviorExtra.


(** * Association lists used as insertion-ordered dictionaries *)

Module AssocFacts.

Lemma nodup_keys_unique {A B} (l : list (A * B)) k a b :
  NoDup l.*1 -> (k, a) ∈ l -> (k, b) ∈ l -> a = b.
Proof.
  induction l as [|[k0 v0] l IH]; intros Hnd Ha Hb.
  { by apply elem_of_nil in Ha. }
  rewrite fmap_cons in Hnd. apply NoDup_cons in Hnd as [Hk0 Hnd].
  apply elem_of_cons in Ha as [Ha|Ha]; apply elem_of_cons in Hb as [Hb|Hb].
  - congruence.
  - injection Ha as -> ->. exfalso. apply Hk0.
    by apply (list_elem_of_fmap_2 fst l (k0, b)).
  - injection Hb as -> ->. exfalso. apply Hk0.
    by apply (list_elem_of_fmap_2 fst l (k0, a)).
  - by apply IH.
Qed.

End AssocFacts.


(** * Properties of the away sweep *)

Module IngestLoopFacts.

Import Ingest IngestLoop.
Local Open Scope float_scope.

Section Loop.

Variables (away_seconds motion_threshold : float) (source_id : string).

(** A subject already marked away is not due, at any time. *)
Lemma away_due_marked now1 now2 st :
  away_due away_seconds now2 (mark_away now1 st) = false.
Proof. unfold away_due. cbn. by rewrite andb_false_r. Qed.

Lemma away_sweep_entries now_ts now_iso subjects :
  fst (away_sweep away_seconds motion_threshold source_id now_ts now_iso subjects)
    = map (swept_entry away_seconds now_ts) subjects.
Proof.
  induction subjects as [|[subject st] rest IH]; [reflexivity|]. cbn.
  destruct (away_sweep _ _ _ _ _ rest) as [rest' pushes]. cbn in IH. subst rest'.
  unfold swept_entry. cbn [fst snd].
  destruct (away_due away_seconds now_ts st); reflexivity.
Qed.

Lemma swept_subjects_cons now_ts subject st rest :
  swept_subjects away_seconds now_ts ((subject, st) :: rest) =
    if away_due away_seconds now_ts st
    then subject :: swept_subjects away_seconds now_ts rest
    else swept_subjects away_seconds now_ts rest.
Proof.
  unfold swept_subjects. rewrite filter_cons. cbn [snd].
  destruct (away_due away_seconds now_ts st).
  - destruct (decide (true = true)); [reflexivity|done].
  - destruct (decide (false = true)); [discriminate|reflexivity].
Qed.

Lemma away_sweep_pushes now_ts now_iso subjects :
  snd (away_sweep away_seconds motion_threshold source_id now_ts now_iso subjects)
    = flat_map (away_pushes motion_threshold source_id now_iso)
        (swept_subjects away_seconds now_ts subjects).
Proof.
  induction subjects as [|[subject st] rest IH]; [reflexivity|]. cbn [away_sweep].
  destruct (away_sweep _ _ _ _ _ rest) as [rest' pushes]. cbn [snd] in IH. subst pushes.
  rewrite swept_subjects_cons.
  destruct (away_due away_seconds now_ts st); reflexivity.
Qed.

Lemma swept_entry_key now_ts e : fst (swept_entry away_seconds now_ts e) = fst e.
Proof. unfold swept_entry. destruct (away_due _ _ _); reflexivity. Qed.

Lemma swept_entry_not_due now1 now2 e :
  away_due away_seconds now1 (snd e) = true ->
  away_due away_seconds now2 (snd (swept_entry away_seconds now1 e)) = false.
Proof. intros H. unfold swept_entry. rewrite H. apply away_due_marked. Qed.

Lemma elem_of_swept now_ts subjects s :
  s ∈ swept_subjects away_seconds now_ts subjects <->
  exists st, (s, st) ∈ subjects /\ away_due away_seconds now_ts st = true.
Proof.
  unfold swept_subjects. rewrite list_elem_of_fmap. split.
  - intros ([s' st] & -> & Hin). apply list_elem_of_filter in Hin as [Hd Hin]. eauto.
  - intros (st & Hin & Hd). exists (s, st). split; [reflexivity|].
    apply list_elem_of_filter. by split.
Qed.

(** X9. No second away event: with one entry per subject, a subject that a
    sweep pushed away events for is not pushed for by the next sweep, at
    whatever time that one runs. *)
Theorem away_pushed_once now1 iso1 now2 subjects s :
  NoDup subjects.*1 ->
  s ∈ swept_subjects away_seconds now1 subjects ->
  s ∉ swept_subjects away_seconds now2
        (fst (away_sweep away_seconds motion_threshold source_id now1 iso1 subjects)).
Proof.
  intros Hnd Hin Hin2.
  apply elem_of_swept in Hin as (st & Hst & Hdue).
  apply elem_of_swept in Hin2 as (st2 & Hst2 & Hdue2).
  rewrite away_sweep_entries in Hst2.
  apply list_elem_of_fmap in Hst2 as ([s0 st0] & Heq & Hin0).
  assert (s0 = s) as ->.
  { pose proof (swept_entry_key now1 (s0, st0)) as Hk. rewrite <- Heq in Hk. done. }
  assert (st0 = st) as -> by exact (AssocFacts.nodup_keys_unique _ _ _ _ Hnd Hin0 Hst).
  pose proof (swept_entry_not_due now1 now2 (s, st) Hdue) as Hnot.
  rewrite <- Heq in Hnot. cbn in Hnot. congruence.
Qed.

(** X10. Sweeping again at the same instant pushes nothing and leaves the
    dictionary as it is. *)
Theorem away_sweep_idempotent now_ts iso1 iso2 subjects :
  away_sweep away_seconds motion_threshold source_id now_ts iso2
    (fst (away_sweep away_seconds motion_threshold source_id now_ts iso1 subjects))
  = (fst (away_sweep away_seconds motion_threshold source_id now_ts iso1 subjects), []).
Proof.
  induction subjects as [|[subject st] rest IH]; [reflexivity|]. cbn.
  destruct (away_sweep _ _ _ _ iso1 rest) as [rest' pushes]. cbn in IH.
  destruct (away_due away_seconds now_ts st) eqn:E; cbn; rewrite IH.
  - by rewrite away_due_marked.
  - by rewrite E.
Qed.

(** X11. The sweep keeps the entries, their order and everything the motion
    estimate and the rules engine rest on: the next position sample of a
    subject that was swept is measured against the centre seen before it
    left. *)
Theorem away_sweep_keeps_motion now_ts now_iso subjects :
  Forall2
    (fun e e' =>
       fst e' = fst e /\
       behavior (snd e') = behavior (snd e) /\
       last_seen_ts (snd e') = last_seen_ts (snd e) /\
       forall float_pow center at_ts,
         motion_ema (observe_position float_pow (snd e') center at_ts)
           = motion_ema (observe_position float_pow (snd e) center at_ts))
    subjects
    (fst (away_sweep away_seconds motion_threshold source_id now_ts now_iso subjects)).
Proof.
  rewrite away_sweep_entries.
  induction subjects as [|e rest IH]; cbn; constructor; [|exact IH].
  unfold swept_entry. destruct (away_due _ _ _); cbn; by repeat split.
Qed.

End Loop.

Lemma away_pushed_once_witness :
  let st := mkSubjectState (Some Behavior.active) 10 20 None 0
              Behavior.initial_state None 0 in
  "anon@cam" ∉ swept_subjects 120 900
                 (fst (away_sweep 120 2 "cam" 500 "t1" [("anon@cam", st)])).
Proof.
  intros st.
  apply (away_pushed_once 120 2 "cam" 500 "t1" 900
           [("anon@cam", st)] "anon@cam").
  - apply (bool_decide_unpack _). vm_compute. exact I.
  - vm_compute. left.
Defined.

End IngestLoopFacts.




(** * Properties of the presence snapshot *)

Module PresenceStateFacts.

Import PresenceState.
Local Open Scope Z_scope.

Lemma latest_snoc events e :
  latest_by_subject (events ++ [e]) = latest_step (latest_by_subject events) e.
Proof. unfold latest_by_subject. apply foldl_snoc. Qed.

Lemma latest_from_events events : forall s e,
  (s, e) ∈ latest_by_subject events -> s = subject_of e /\ e ∈ events.
Proof.
  induction events as [|e0 events IH] using rev_ind; intros s e Hin.
  { by apply elem_of_nil in Hin. }
  rewrite latest_snoc in Hin. unfold latest_step in Hin.
  destruct (decide (subject_of e0 ∈ (latest_by_subject events).*1)).
  - destruct (IH s e Hin) as [-> He]. split; [reflexivity|].
    apply elem_of_app. by left.
  - apply elem_of_app in Hin as [Hin|Hin].
    + destruct (IH s e Hin) as [-> He]. split; [reflexivity|].
      apply elem_of_app. by left.
    + apply list_elem_of_singleton in Hin. injection Hin as -> ->.
      split; [reflexivity|]. apply elem_of_app. right. by apply list_elem_of_singleton.
Qed.

Lemma latest_covers events e :
  e ∈ events -> subject_of e ∈ (latest_by_subject events).*1.
Proof.
  induction events as [|e0 events IH] using rev_ind; intros Hin.
  { by apply elem_of_nil in Hin. }
  rewrite latest_snoc. unfold latest_step.
  apply elem_of_app in Hin as [Hin|Hin].
  - destruct (decide (subject_of e0 ∈ (latest_by_subject events).*1)); [by apply IH|].
    rewrite fmap_app. apply elem_of_app. left. by apply IH.
  - apply list_elem_of_singleton in Hin as ->.
    destruct (decide (subject_of e0 ∈ (latest_by_subject events).*1)); [done|].
    rewrite fmap_app. apply elem_of_app. right. by apply list_elem_of_singleton.
Qed.

Lemma latest_nodup events : NoDup (latest_by_subject events).*1.
Proof.
  induction events as [|e0 events IH] using rev_ind; [constructor|].
  rewrite latest_snoc. unfold latest_step.
  destruct (decide (subject_of e0 ∈ (latest_by_subject events).*1)) as [|Hnew]; [exact IH|].
  rewrite fmap_app. apply NoDup_app. split; [exact IH|]. split.
  - intros x Hx Hx'. apply list_elem_of_singleton in Hx'. cbn in Hx'. by subst x.
  - apply NoDup_singleton.
Qed.

(** The event kept for a subject is the first one of that subject. *)
Lemma latest_is_first events : forall s e,
  (s, e) ∈ latest_by_subject events ->
  exists before after,
    events = before ++ e :: after /\ forall e', e' ∈ before -> subject_of e' <> s.
Proof.
  induction events as [|e0 events IH] using rev_ind; intros s e Hin.
  { by apply elem_of_nil in Hin. }
  rewrite latest_snoc in Hin. unfold latest_step in Hin.
  assert ((s, e) ∈ latest_by_subject events ->
          exists before after,
            events ++ [e0] = before ++ e :: after /\
            forall e', e' ∈ before -> subject_of e' <> s) as Hold.
  { intros Hin'. destruct (IH s e Hin') as (before & after & -> & Hb).
    exists before, (after ++ [e0]). split; [|exact Hb].
    by rewrite <- app_assoc. }
  destruct (decide (subject_of e0 ∈ (latest_by_subject events).*1)) as [|Hnew];
    [by apply Hold|].
  apply elem_of_app in Hin as [Hin|Hin]; [by apply Hold|].
  apply list_elem_of_singleton in Hin. injection Hin as -> ->.
  exists events, []. split; [reflexivity|].
  intros e' He' Heq. apply Hnew. rewrite <- Heq. by apply latest_covers.
Qed.

Lemma latest_newest_first events :
  newest_first events ->
  StronglySorted (fun a b : string * PresenceEvent => ts (snd b) <= ts (snd a))
    (latest_by_subject events).
Proof.
  induction events as [|e0 events IH] using rev_ind; intros Hs; [constructor|].
  unfold newest_first in Hs. apply StronglySorted_app in Hs as (Hcross & Hs & _).
  rewrite latest_snoc. unfold latest_step.
  destruct (decide (subject_of e0 ∈ (latest_by_subject events).*1)); [by apply IH|].
  apply StronglySorted_app_2; [|by apply IH|repeat constructor].
  intros [s e] x Hin Hx. apply list_elem_of_singleton in Hx as ->. cbn.
  apply Hcross; [|by apply list_elem_of_singleton].
  by apply (latest_from_events events s e).
Qed.

(** *** The stable descending sort *)

Lemma insert_desc_perm r rows : insert_desc r rows ≡ₚ r :: rows.
Proof.
  induction rows as [|x rows IH]; cbn; [reflexivity|].
  destruct (last_seen_ts r <? last_seen_ts x); [|reflexivity].
  rewrite IH. apply Permutation_swap.
Qed.

Lemma sorted_desc_perm rows : sorted_desc rows ≡ₚ rows.
Proof.
  induction rows as [|x rows IH]; cbn; [reflexivity|].
  fold (sorted_desc rows). by rewrite insert_desc_perm, IH.
Qed.

Lemma insert_desc_sorted r rows :
  StronglySorted newer_or_equal rows ->
  StronglySorted newer_or_equal (insert_desc r rows).
Proof.
  induction rows as [|x rows IH]; intros Hs; cbn; [repeat constructor|].
  apply StronglySorted_cons in Hs as [Hx Hs].
  destruct (last_seen_ts r <? last_seen_ts x) eqn:E.
  - apply Z.ltb_lt in E. apply StronglySorted_cons. split; [|by apply IH].
    rewrite insert_desc_perm. constructor; [unfold newer_or_equal; lia|exact Hx].
  - apply Z.ltb_ge in E. apply StronglySorted_cons. split.
    + constructor; [exact E|].
      eapply Forall_impl; [exact Hx|]. unfold newer_or_equal. intros y Hy. lia.
    + apply StronglySorted_cons. by split.
Qed.

Lemma sorted_desc_sorted rows : StronglySorted newer_or_equal (sorted_desc rows).
Proof.
  induction rows as [|x rows IH]; cbn; [constructor|].
  fold (sorted_desc rows). by apply insert_desc_sorted.
Qed.

(** A list that is already in order is returned as it is. *)
Lemma sorted_desc_id rows :
  StronglySorted newer_or_equal rows -> sorted_desc rows = rows.
Proof.
  induction rows as [|x rows IH]; intros Hs; cbn; [reflexivity|].
  apply StronglySorted_cons in Hs as [Hx Hs].
  fold (sorted_desc rows). rewrite (IH Hs).
  destruct rows as [|y rows]; [reflexivity|]. cbn.
  apply Forall_cons in Hx as [Hy _]. unfold newer_or_equal in Hy.
  destruct (last_seen_ts x <? last_seen_ts y) eqn:E; [|reflexivity].
  apply Z.ltb_lt in E. lia.
Qed.

Lemma elem_of_current events r :
  r ∈ get_current_presence events <->
  exists e, (subject_of e, e) ∈ latest_by_subject events /\ r = to_row (subject_of e, e).
Proof.
  unfold get_current_presence. rewrite sorted_desc_perm.
  change (map to_row (latest_by_subject events))
    with (to_row <$> latest_by_subject events).
  rewrite list_elem_of_fmap. split.
  - intros ([s e] & -> & Hin).
    destruct (latest_from_events events s e Hin) as [-> _]. eauto.
  - intros (e & Hin & ->). eauto.
Qed.

(** X12. One row per subject: the subjects of the returned rows are
    pairwise distinct, and they are exactly the subjects of the events. *)
Theorem one_row_per_subject events :
  NoDup (subject <$> get_current_presence events) /\
  forall s, s ∈ subject <$> get_current_presence events <->
            exists e, e ∈ events /\ subject_of e = s.
Proof.
  assert (subject <$> get_current_presence events ≡ₚ (latest_by_subject events).*1)
    as Hperm.
  { unfold get_current_presence. rewrite sorted_desc_perm.
    change (map to_row (latest_by_subject events))
      with (to_row <$> latest_by_subject events).
    rewrite <- list_fmap_compose. reflexivity. }
  split.
  - rewrite Hperm. apply latest_nodup.
  - intros s. rewrite Hperm. split.
    + intros Hin. apply list_elem_of_fmap in Hin as ([s' e] & -> & Hin).
      destruct (latest_from_events events s' e Hin) as [-> He]. eauto.
    + intros (e & He & <-). by apply latest_covers.
Qed.

(** X13. The returned rows are ordered from the most recent to the
    oldest. *)
Theorem rows_newest_first events :
  StronglySorted newer_or_equal (get_current_presence events).
Proof. apply sorted_desc_sorted. Qed.

(** X14. Latest per subject: when the query result is ordered newest first,
    every returned row is built from an event of its subject and no event
    of that subject is more recent than the row. *)
Theorem row_is_latest events r :
  newest_first events ->
  r ∈ get_current_presence events ->
  (exists e0, e0 ∈ events /\ r = to_row (subject_of e0, e0)) /\
  forall e, e ∈ events -> subject_of e = subject r -> ts e <= last_seen_ts r.
Proof.
  intros Hs Hr. apply elem_of_current in Hr as (e0 & Hin & ->).
  split.
  { exists e0. split; [|reflexivity].
    by apply (latest_from_events events (subject_of e0) e0). }
  intros e He Hsub. cbn in Hsub. cbn.
  destruct (latest_is_first events (subject_of e0) e0 Hin) as (before & after & -> & Hb).
  apply elem_of_app in He as [He|He]; [by apply Hb in He|].
  apply elem_of_cons in He as [->|He]; [lia|].
  unfold newest_first in Hs. apply StronglySorted_app_1_r in Hs.
  apply StronglySorted_cons in Hs as [Hall _].
  rewrite Forall_forall in Hall. by apply Hall.
Qed.

Lemma row_is_latest_witness :
  let e1 := mkPresenceEvent 300 "none" None (Some "track-1") (Some "cam1") "active" None in
  let e2 := mkPresenceEvent 200 "none" None (Some "track-2") (Some "cam1") "idle" None in
  let e3 := mkPresenceEvent 100 "none" None (Some "track-1") (Some "cam2") "away" None in
  (exists e0, e0 ∈ [e1; e2; e3] /\
              to_row (subject_of e1, e1) = to_row (subject_of e0, e0)) /\
  (forall e, e ∈ [e1; e2; e3] ->
     subject_of e = subject (to_row (subject_of e1, e1)) -> ts e <= 300).
Proof.
  intros e1 e2 e3.
  apply (row_is_latest [e1; e2; e3] (to_row (subject_of e1, e1))).
  - unfold newest_first. repeat constructor; cbn; lia.
  - vm_compute. left.
Defined.

(** X15. On a query result ordered newest first, the final sort changes
    nothing: the rows are the first events of the subjects in the order of
    the query. *)
Theorem final_sort_is_identity events :
  newest_first events ->
  get_current_presence events = to_row <$> latest_by_subject events.
Proof.
  intros Hs. unfold get_current_presence.
  change (map to_row (latest_by_subject events))
    with (to_row <$> latest_by_subject events).
  apply sorted_desc_id.
  pose proof (latest_newest_first events Hs) as Hl.
  induction Hl as [|x l Hl IH Hx]; cbn; [constructor|].
  constructor; [exact IH|].
  rewrite Forall_fmap. eapply Forall_impl; [exact Hx|]. by intros y Hy.
Qed.

Lemma final_sort_is_identity_witness :
  let e1 := mkPresenceEvent 300 "none" None (Some "track-1") (Some "cam1") "active" None in
  let e3 := mkPresenceEvent 100 "none" None (Some "track-1") (Some "cam2") "away" None in
  get_current_presence [e1; e3] = to_row <$> latest_by_subject [e1; e3].
Proof.
  intros e1 e3. apply (final_sort_is_identity [e1; e3]).
  unfold newest_first. repeat constructor; cbn; lia.
Defined.

End PresenceStateFacts.


(** * Further properties of the zone compliance engine *)

Module ComplianceExtra.

Import Compliance ComplianceTerms.
Local Open Scope Z_scope.

(** *** The entries and the cache after one evaluation *)

Section Loop.

Variables (rs : gmap string Role) (regs : gmap string Regulation) (t : Tally) (now : Z).

(** The loop appends one entry per zone, each computed by the iteration of
    its zone on some cache. *)
Lemma eval_loop_entries (zs : list Zone) : forall acc,
  exists outs,
    (foldl (eval_step rs regs t now) acc zs).1 = acc.1 ++ outs /\
    Forall2 (fun z o => exists c, o = (eval_zone rs regs t now c z).1) zs outs.
Proof.
  induction zs as [|z zs IH]; intros acc; cbn [foldl].
  - exists []. split; [by rewrite app_nil_r|constructor].
  - destruct (IH (eval_step rs regs t now acc z)) as (outs & Heq & Hall).
    exists ((eval_zone rs regs t now acc.2 z).1 :: outs). split.
    + rewrite Heq, ComplianceFacts.eval_step_unfold. cbn [fst snd].
      by rewrite <- app_assoc.
    + constructor; [eauto|exact Hall].
Qed.

(** The loop writes the cache at the identifiers of regulated zones only. *)
Lemma eval_loop_frame (zs : list Zone) (k : string) : forall acc,
  (forall z, z ∈ zs -> type z ≫= (regs !!.) <> None -> zone_id z <> k) ->
  (foldl (eval_step rs regs t now) acc zs).2 !! k = acc.2 !! k.
Proof.
  induction zs as [|z zs IH]; intros acc Hk; cbn [foldl]; [reflexivity|].
  rewrite IH.
  - rewrite ComplianceFacts.eval_step_unfold. cbn [snd].
    destruct (type z ≫= (regs !!.)) as [reg|] eqn:Hreg.
    + apply ComplianceFacts.eval_zone_frame. intros ->.
      eapply Hk; [apply list_elem_of_here| |reflexivity]. by rewrite Hreg.
    + by rewrite ComplianceFacts.eval_zone_no_regulation.
  - intros z' Hz'. apply Hk. by apply list_elem_of_further.
Qed.

End Loop.

Lemma evaluate_out_ids m presence now cache :
  out_zone_id <$> zones_of (evaluate_zone_compliance m presence now cache)
    = zone_id <$> zones m.
Proof.
  rewrite ComplianceFacts.evaluate_unfold.
  destruct (eval_loop_entries (roles_by_id m) (regulations_by_type m)
              (tally m presence) now (zones m) ([], cache)) as (outs & Heq & Hall).
  cbn [fst app] in Heq. unfold zones_of. cbn [fst]. rewrite Heq. clear Heq.
  induction Hall as [|z o zs outs (c & ->) _ IH]; [reflexivity|].
  rewrite !fmap_cons, IH, ComplianceFacts.eval_zone_id. reflexivity.
Qed.

(** X16. One entry per zone, in the order of the policy document, and one
    event per entry, stamped with the evaluation time. *)
Theorem entries_follow_zones m presence now cache :
  let r := evaluate_zone_compliance m presence now cache in
  out_zone_id <$> zones_of r = zone_id <$> zones m /\
  ev_zone <$> events_of r = zones_of r /\
  Forall (fun e => ts e = now /\ event_type e = "compliance.zone") (events_of r).
Proof.
  intros r. subst r. split; [apply evaluate_out_ids|].
  rewrite ComplianceFacts.events_of_evaluate.
  generalize (zones_of (evaluate_zone_compliance m presence now cache)).
  intros outs. split.
  - induction outs as [|o outs IH]; [reflexivity|]. cbn. by rewrite IH.
  - induction outs as [|o outs IH]; constructor; [by split|exact IH].
Qed.

(** X17. The cache mirrors the output: after an evaluation, the cache entry
    of every zone that has a regulation holds the state and the [since] just
    emitted for it, and the last-seen time of the snapshot. *)
Theorem cache_mirrors_entries m presence now cache z reg :
  NoDup (zone_id <$> zones m) ->
  z ∈ zones m ->
  regulation_of m z = Some reg ->
  let r := evaluate_zone_compliance m presence now cache in
  exists o,
    zone_entry (zones_of r) (zone_id z) = Some o /\
    cache_of r !! zone_id z =
      Some (mkZoneState (out_state o) (out_since o)
              (last_seen_of (tally m presence) (zone_id z))).
Proof.
  intros Hnd Hin Hreg r.
  destruct (ComplianceFacts.evaluate_zone m presence now cache z Hnd Hin) as [He Hc].
  eexists. split; [exact He|].
  fold r in Hc. rewrite Hc. by apply (ComplianceFacts.eval_zone_cached _ _ _ _ _ _ reg).
Qed.

Lemma cache_mirrors_entries_witness :
  let r := evaluate_zone_compliance demo_model [seen "janitor" "cam1" 900] 1000 ∅ in
  exists o,
    zone_entry (zones_of r) "vault" = Some o /\
    cache_of r !! "vault" =
      Some (mkZoneState (out_state o) (out_since o)
              (last_seen_of (tally demo_model [seen "janitor" "cam1" 900]) "vault")).
Proof.
  apply (cache_mirrors_entries demo_model [seen "janitor" "cam1" 900] 1000 ∅
           vault demo_regulation).
  - apply ComplianceFacts.demo_zone_ids.
  - apply (bool_decide_unpack _). vm_compute. exact I.
  - vm_compute. reflexivity.
Defined.

(** X18. An evaluation leaves every cache key alone that is not the
    identifier of a zone with a regulation. *)
Theorem cache_frame m presence now cache k :
  (forall z, z ∈ zones m -> regulation_of m z <> None -> zone_id z <> k) ->
  cache_of (evaluate_zone_compliance m presence now cache) !! k = cache !! k.
Proof.
  intros Hk. rewrite ComplianceFacts.evaluate_unfold. unfold cache_of. cbn [snd].
  by rewrite eval_loop_frame.
Qed.

Lemma cache_frame_witness :
  cache_of (evaluate_zone_compliance demo_model [] 1000
              {[ "yard" := mkZoneState COMPLIANT 5 None ]}) !! "yard"
    = Some (mkZoneState COMPLIANT 5 None).
Proof.
  rewrite (cache_frame demo_model [] 1000 {[ "yard" := mkZoneState COMPLIANT 5 None ]} "yard").
  - reflexivity.
  - intros z Hz Hreg Hid.
    apply elem_of_cons in Hz as [->|Hz]; [discriminate Hid|].
    apply list_elem_of_singleton in Hz as ->. apply Hreg. reflexivity.
Defined.

(** *** Escalation *)

(** With thresholds that are not negative, a state whose [since] is not in
    the past is not escalated. *)
Lemma escalate_not_elapsed esc computed now state_since :
  0 <= default 120 (esc !! "understaffed") ->
  0 <= default 60 (esc !! "unauthorized") ->
  now <= state_since ->
  escalate esc computed now state_since = computed.
Proof.
  intros H1 H2 Hle. unfold escalate.
  rewrite !ComplianceFacts.elapsed_not_exceeded by assumption.
  destruct (decide (computed = UNDERSTAFFED ∨ computed = OVERSTAFFED));
    destruct (decide (computed = UNAUTHORIZED_PERSON)); reflexivity.
Qed.

Lemma escalate_spec esc computed now state_since :
  computed <> CRITICAL_VIOLATION ->
  (escalate esc computed now state_since = CRITICAL_VIOLATION <->
   ((computed = UNDERSTAFFED \/ computed = OVERSTAFFED) /\
    elapsed_exceeds now state_since (default 120 (esc !! "understaffed")) = true) \/
   (computed = UNAUTHORIZED_PERSON /\
    elapsed_exceeds now state_since (default 60 (esc !! "unauthorized")) = true)).
Proof.
  intros Hne. unfold escalate.
  destruct (decide (computed = UNDERSTAFFED ∨ computed = OVERSTAFFED)) as [Huo|Hnuo].
  - destruct (elapsed_exceeds now state_since (default 120 (esc !! "understaffed"))) eqn:E.
    + destruct (decide (CRITICAL_VIOLATION = UNAUTHORIZED_PERSON)); [discriminate|].
      split; [intros _; left; by split|done].
    + destruct (decide (computed = UNAUTHORIZED_PERSON)) as [->|_].
      { destruct Huo; discriminate. }
      split; [done|].
      intros [[_ Hlt]|[-> _]]; [discriminate|destruct Huo; discriminate].
  - destruct (decide (computed = UNAUTHORIZED_PERSON)) as [->|Hnu].
    + destruct (elapsed_exceeds now state_since (default 60 (esc !! "unauthorized"))) eqn:E.
      * split; [intros _; right; by split|done].
      * split; [discriminate|].
        intros [[[?|?] _]|[_ Hlt]]; discriminate.
    + split; [done|]. intros [[Huo _]|[-> _]]; contradiction.
Qed.

(** X19. Escalation needs memory: with thresholds that are not negative, a
    zone is emitted as [CRITICAL_VIOLATION] only if the cache already held
    the state computed now for it, with a [since] in the past, which is the
    [since] emitted. A first evaluation, on an empty cache, is never
    critical. *)
Theorem critical_needs_cached_state m presence now cache z reg o :
  NoDup (zone_id <$> zones m) ->
  z ∈ zones m ->
  regulation_of m z = Some reg ->
  0 <= understaffed_threshold reg ->
  0 <= unauthorized_threshold reg ->
  zone_entry (zones_of (evaluate_zone_compliance m presence now cache)) (zone_id z)
    = Some o ->
  out_state o = CRITICAL_VIOLATION ->
  exists p,
    cache !! zone_id z = Some p /\
    state p = pre_escalation_state m presence z reg /\
    since p = out_since o /\
    since p < now.
Proof.
  intros Hnd Hin Hreg Hu Ha Ho Hcrit.
  destruct (ComplianceFacts.evaluate_zone m presence now cache z Hnd Hin) as [He _].
  rewrite Ho in He. injection He as He.
  destruct (last_seen_of (tally m presence) (zone_id z)) as [seen_ts|] eqn:Hseen.
  - rewrite (ComplianceFacts.eval_zone_presence _ _ _ _ _ _ reg seen_ts Hreg Hseen) in He.
    rewrite He in Hcrit. cbn in Hcrit. rewrite He. cbn [out_since].
    pose proof (ComplianceFacts.compute_state_range (roles_by_id m) reg (type z)
      (default [] (zone_counts (tally m presence) !! zone_id z))) as Hrange.
    fold (pre_escalation_state m presence z reg) in Hcrit, Hrange |- *.
    destruct (Z_lt_le_dec
                (hysteresis_since (cache !! zone_id z)
                   (pre_escalation_state m presence z reg) now) now) as [Hlt|Hge].
    + unfold hysteresis_since in Hlt |- *.
      destruct (cache !! zone_id z) as [p|]; [|lia].
      destruct (decide (state p = pre_escalation_state m presence z reg)); [|lia].
      exists p. by repeat split.
    + rewrite escalate_not_elapsed in Hcrit by assumption. contradiction.
  - rewrite (ComplianceFacts.eval_zone_no_presence _ _ _ _ _ _ reg Hreg Hseen) in He.
    rewrite He in Hcrit. cbn in Hcrit. destruct (cache !! zone_id z); discriminate.
Qed.

Lemma critical_needs_cached_state_witness :
  exists p,
    ({[ "vault" := mkZoneState UNDERSTAFFED 0 None ]} : gmap string ZoneState) !! "vault"
      = Some p /\
    state p = pre_escalation_state demo_model [seen "janitor" "cam1" (seconds 119)]
                vault demo_regulation /\
    since p = 0 /\
    since p < seconds 121.
Proof.
  apply (critical_needs_cached_state demo_model [seen "janitor" "cam1" (seconds 119)]
           (seconds 121) {[ "vault" := mkZoneState UNDERSTAFFED 0 None ]}
           vault demo_regulation
           (mkZoneOut "vault" (Some "REG-1") CRITICAL_VIOLATION ["missing:guard"] 0 "high")).
  - apply ComplianceFacts.demo_zone_ids.
  - apply (bool_decide_unpack _). vm_compute. exact I.
  - vm_compute. reflexivity.
  - vm_compute. discriminate.
  - vm_compute. discriminate.
  - vm_compute. reflexivity.
  - reflexivity.
Defined.

(** X20. The thresholds of the three violation states: a zone cached in
    the state computed now keeps the cached [since] and is emitted as
    [CRITICAL_VIOLATION] exactly when [total_seconds()] of the time since
    then, a binary64 value, is strictly greater than the ["understaffed"]
    threshold for [UNDERSTAFFED] and also for [OVERSTAFFED], and than the
    ["unauthorized"] threshold for [UNAUTHORIZED_PERSON]; otherwise the
    computed state is emitted. *)
Theorem escalation_thresholds m presence now cache z reg s ls :
  NoDup (zone_id <$> zones m) ->
  z ∈ zones m ->
  regulation_of m z = Some reg ->
  recent_presence m presence z = true ->
  cache !! zone_id z = Some (mkZoneState (pre_escalation_state m presence z reg) s ls) ->
  exists o,
    zone_entry (zones_of (evaluate_zone_compliance m presence now cache)) (zone_id z)
      = Some o /\
    out_since o = s /\
    (out_state o = CRITICAL_VIOLATION \/
     out_state o = pre_escalation_state m presence z reg) /\
    (out_state o = CRITICAL_VIOLATION <->
     ((pre_escalation_state m presence z reg = UNDERSTAFFED \/
       pre_escalation_state m presence z reg = OVERSTAFFED) /\
      (inject_Z (understaffed_threshold reg) < total_seconds (now - s))%Q) \/
     (pre_escalation_state m presence z reg = UNAUTHORIZED_PERSON /\
      (inject_Z (unauthorized_threshold reg) < total_seconds (now - s))%Q)).
Proof.
  intros Hnd Hin Hreg Hrec Hc.
  destruct (ComplianceFacts.recent_presence_seen _ _ _ Hrec) as [seen_ts Hseen].
  destruct (ComplianceFacts.evaluate_zone m presence now cache z Hnd Hin) as [He _].
  rewrite (ComplianceFacts.eval_zone_presence _ _ _ _ _ _ reg seen_ts Hreg Hseen) in He.
  fold (pre_escalation_state m presence z reg) in He. rewrite Hc in He.
  eexists. split; [exact He|]. cbn.
  destruct (decide (pre_escalation_state m presence z reg
                    = pre_escalation_state m presence z reg)) as [_|Hn]; [|done].
  split; [reflexivity|]. split.
  - destruct (ComplianceFacts.escalate_cases (violation_escalation_seconds reg)
                (pre_escalation_state m presence z reg) now s); auto.
  - rewrite escalate_spec by apply ComplianceFacts.compute_state_range.
    unfold understaffed_threshold, unauthorized_threshold.
    by rewrite !ComplianceFacts.elapsed_exceeds_true.
Qed.

Lemma escalation_thresholds_witness :
  let r1 := evaluate_zone_compliance anonymous_model
              [sighting "cam1" (seconds 999)] (seconds 1000) ∅ in
  let p := [sighting "cam1" (seconds 1120)] in
  exists o,
    zone_entry
      (zones_of (evaluate_zone_compliance anonymous_model p (seconds 1121) (cache_of r1)))
      "vault" = Some o /\
    out_since o = seconds 1000 /\
    (out_state o = CRITICAL_VIOLATION \/
     out_state o = pre_escalation_state anonymous_model p vault anonymous_regulation) /\
    (out_state o = CRITICAL_VIOLATION <->
     ((pre_escalation_state anonymous_model p vault anonymous_regulation = UNDERSTAFFED \/
       pre_escalation_state anonymous_model p vault anonymous_regulation = OVERSTAFFED) /\
      (inject_Z (understaffed_threshold anonymous_regulation)
         < total_seconds (seconds 1121 - seconds 1000))%Q) \/
     (pre_escalation_state anonymous_model p vault anonymous_regulation
        = UNAUTHORIZED_PERSON /\
      (inject_Z (unauthorized_threshold anonymous_regulation)
         < total_seconds (seconds 1121 - seconds 1000))%Q)).
Proof.
  intros r1 p.
  apply (escalation_thresholds anonymous_model p (seconds 1121) (cache_of r1)
           vault anonymous_regulation (seconds 1000) (Some (seconds 999))).
  - apply (bool_decide_unpack _). vm_compute. exact I.
  - apply (bool_decide_unpack _). vm_compute. exact I.
  - vm_compute. reflexivity.
  - vm_compute. reflexivity.
  - vm_compute. reflexivity.
Defined.

(** *** The violations list and the state *)

Lemma forbidden_is_unauthorized rid : is_unauthorized ("forbidden:" +:+ rid) = true.
Proof. reflexivity. Qed.

Lemma unauthorized_is_unauthorized rid : is_unauthorized ("unauthorized:" +:+ rid) = true.
Proof. reflexivity. Qed.

(** Every violation raised for a role present in the zone is of the
    forbidden or unauthorized kind. *)
Lemma role_violations_kind rs forbidden ztype rid :
  Forall (fun v => is_unauthorized v = true) (role_violations rs forbidden ztype rid).
Proof.
  unfold role_violations. apply Forall_app. split.
  - destruct (decide (rid ∈ forbidden)); repeat constructor.
  - destruct (rs !! rid) as [r|].
    + destruct (match ztype with Some t0 => _ | None => _ end); repeat constructor.
    + destruct (decide (rid ≠ "unknown")); [repeat constructor|].
      destruct (decide (rid = "unknown")); repeat constructor.
Qed.

Lemma role_violations_all_kind rs forbidden ztype rids :
  Forall (fun v => is_unauthorized v = true)
    (flat_map (role_violations rs forbidden ztype) rids).
Proof.
  induction rids as [|rid rids IH]; cbn; [constructor|].
  apply Forall_app. split; [apply role_violations_kind|exact IH].
Qed.

Lemma required_step_invariant counts acc rc :
  (acc.2 = COMPLIANT -> Forall (fun v => is_unauthorized v = true) acc.1) ->
  (required_step counts acc rc).2 = COMPLIANT ->
  Forall (fun v => is_unauthorized v = true) (required_step counts acc rc).1.
Proof.
  unfold required_step. intros Hacc.
  destruct (count_of rc.1 counts <? default 0 (req_min rc.2));
    destruct (default 999 (req_max rc.2) <? count_of rc.1 counts); cbn;
    first [discriminate | exact Hacc].
Qed.

Lemma required_loop_invariant counts reqs : forall acc,
  (acc.2 = COMPLIANT -> Forall (fun v => is_unauthorized v = true) acc.1) ->
  (foldl (required_step counts) acc reqs).2 = COMPLIANT ->
  Forall (fun v => is_unauthorized v = true) (foldl (required_step counts) acc reqs).1.
Proof.
  induction reqs as [|rc reqs IH]; intros acc Hacc; cbn; [exact Hacc|].
  apply IH. by apply required_step_invariant.
Qed.

(** The loop over the required roles only appends to the violations. *)
Lemma required_loop_extends counts reqs : forall acc,
  exists extra, (foldl (required_step counts) acc reqs).1 = acc.1 ++ extra.
Proof.
  induction reqs as [|rc reqs IH]; intros acc; cbn.
  - exists []. by rewrite app_nil_r.
  - destruct (IH (required_step counts acc rc)) as [extra ->].
    unfold required_step.
    destruct (count_of rc.1 counts <? default 0 (req_min rc.2));
      destruct (default 999 (req_max rc.2) <? count_of rc.1 counts); cbn;
      rewrite <- ?app_assoc; eauto.
Qed.

Lemma compute_state_compliant rs reg ztype counts :
  (compute_state rs reg ztype counts).2 = COMPLIANT <->
  (compute_state rs reg ztype counts).1 = [].
Proof.
  unfold compute_state.
  pose proof (required_loop_invariant counts (required_roles reg)
    (flat_map (role_violations rs (forbidden_roles reg) ztype) (map fst counts), COMPLIANT))
    as Hinv.
  destruct (foldl _ _ _) as [violations st]. cbn in *.
  destruct violations as [|v violations]; [done|].
  split; [|discriminate]. intros Hst.
  destruct (existsb is_unauthorized (v :: violations)) eqn:Hex; [discriminate|].
  exfalso.
  assert (Forall (fun v0 => is_unauthorized v0 = true) (v :: violations)) as Hall.
  { apply Hinv; [|exact Hst]. intros _. apply role_violations_all_kind. }
  apply Forall_cons in Hall as [Hv _]. cbn in Hex. by rewrite Hv in Hex.
Qed.

(** X21. For a zone with a regulation and recent presence, the emitted
    state is [COMPLIANT] exactly when the emitted violations list is empty;
    escalation never turns a violation into [COMPLIANT] or the reverse. *)
Theorem compliant_iff_no_violations m presence now cache z reg :
  NoDup (zone_id <$> zones m) ->
  z ∈ zones m ->
  regulation_of m z = Some reg ->
  recent_presence m presence z = true ->
  exists o,
    zone_entry (zones_of (evaluate_zone_compliance m presence now cache)) (zone_id z)
      = Some o /\
    (out_state o = COMPLIANT <-> out_violations o = []).
Proof.
  intros Hnd Hin Hreg Hrec.
  destruct (ComplianceFacts.recent_presence_seen _ _ _ Hrec) as [seen_ts Hseen].
  destruct (ComplianceFacts.evaluate_zone m presence now cache z Hnd Hin) as [He _].
  rewrite (ComplianceFacts.eval_zone_presence _ _ _ _ _ _ reg seen_ts Hreg Hseen) in He.
  eexists. split; [exact He|]. cbn.
  rewrite <- compute_state_compliant.
  set (cs := compute_state _ _ _ _).
  destruct (ComplianceFacts.escalate_cases (violation_escalation_seconds reg) cs.2 now
              (hysteresis_since (cache !! zone_id z) cs.2 now)) as [->|Hcrit]; [done|].
  rewrite Hcrit. split; [discriminate|]. intros Hc.
  apply ComplianceFacts.escalate_critical in Hcrit;
    [|apply ComplianceFacts.compute_state_range].
  rewrite Hc in Hcrit. destruct Hcrit as [?|[?|?]]; discriminate.
Qed.

Lemma compliant_iff_no_violations_witness :
  exists o,
    zone_entry
      (zones_of (evaluate_zone_compliance demo_model [seen "guard" "cam1" 900] 1000 ∅))
      "vault" = Some o /\
    (out_state o = COMPLIANT <-> out_violations o = []).
Proof.
  apply (compliant_iff_no_violations demo_model [seen "guard" "cam1" 900] 1000 ∅
           vault demo_regulation).
  - apply ComplianceFacts.demo_zone_ids.
  - apply (bool_decide_unpack _). vm_compute. exact I.
  - vm_compute. reflexivity.
  - vm_compute. reflexivity.
Defined.

(** *** The tally of the snapshot *)

Lemma count_of_bump role role' counts :
  count_of role' (bump role counts) =
    count_of role' counts + (if decide (role = role') then 1 else 0).
Proof.
  induction counts as [|[r n] counts IH]; cbn.
  - destruct (decide (role = role')); lia.
  - destruct (decide (r = role)) as [->|Hne]; cbn.
    + destruct (decide (role = role')); lia.
    + destruct (decide (r = role')) as [->|Hne'].
      * destruct (decide (role = role')); [congruence|lia].
      * exact IH.
Qed.

Lemma empty_tally_counts m zid : default [] (zone_counts (empty_tally m) !! zid) = [].
Proof.
  unfold empty_tally. cbn.
  assert (forall (zs : list Zone) (acc : gmap string (list (string * Z))),
            default [] (acc !! zid) = [] ->
            default [] (foldl (fun a z => <[zone_id z := []]> a) acc zs !! zid) = [])
    as Hfold.
  { induction zs as [|z zs IH]; intros acc Hacc; cbn; [exact Hacc|].
    apply IH. destruct (decide (zone_id z = zid)) as [->|Hne].
    - by rewrite lookup_insert_eq.
    - by rewrite lookup_insert_ne. }
  apply Hfold. by rewrite lookup_empty.
Qed.

Lemma tally_step_counts c2z t p zid :
  default [] (zone_counts (tally_step c2z t p) !! zid) =
    if bool_decide (c2z !! default "" (source_id p) = Some zid ∧ zid ≠ "")
    then bump (role_of p) (default [] (zone_counts t !! zid))
    else default [] (zone_counts t !! zid).
Proof.
  unfold tally_step, role_of.
  destruct (c2z !! default "" (source_id p)) as [zid'|] eqn:Hz.
  - destruct (decide (zid' = "")) as [->|Hne].
    + rewrite bool_decide_eq_false_2; [reflexivity|]. intros [Heq Hnz]. congruence.
    + cbn. destruct (decide (zid' = zid)) as [->|Hne'].
      * rewrite bool_decide_eq_true_2 by done. by rewrite lookup_insert_eq.
      * rewrite bool_decide_eq_false_2 by (intros [Heq _]; congruence).
        by rewrite lookup_insert_ne.
  - rewrite bool_decide_eq_false_2; [reflexivity|]. intros [Heq _]. discriminate.
Qed.

(** X22. The count kept for a role in a zone is the number of snapshot
    records whose source maps to the zone and whose role it is; a record
    without a role counts as ["unknown"]. *)
Theorem counts_are_record_counts m presence zid role :
  count_of role (default [] (zone_counts (tally m presence) !! zid)) =
    Z.of_nat (length (filter (fun p => maps_to m zid p = true /\ role_of p = role) presence)).
Proof.
  induction presence as [|p presence IH] using rev_ind.
  - unfold tally. cbn [foldl]. by rewrite empty_tally_counts.
  - unfold tally. rewrite foldl_snoc. fold (tally m presence).
    rewrite tally_step_counts, filter_app, length_app, Nat2Z.inj_add, <- IH.
    change (bool_decide (camera_to_zone m !! default "" (source_id p) = Some zid
                         ∧ zid ≠ "")) with (maps_to m zid p).
    destruct (maps_to m zid p) eqn:Hmap.
    + rewrite count_of_bump.
      destruct (decide (role_of p = role)) as [Hr|Hr].
      * rewrite filter_cons_True by (split; [exact Hmap|exact Hr]). reflexivity.
      * rewrite filter_cons_False by (intros [_ ?]; contradiction). cbn. lia.
    + rewrite filter_cons_False by (rewrite Hmap; intros [? _]; discriminate). cbn. lia.
Qed.

(** The tally ignores the records of unmapped sources. *)
Lemma tally_step_unmapped m t p : mapped m p = false -> tally_step (camera_to_zone m) t p = t.
Proof.
  unfold mapped, tally_step.
  destruct (camera_to_zone m !! default "" (source_id p)) as [zid|]; [|reflexivity].
  intros H. apply bool_decide_eq_false in H.
  destruct (decide (zid = "")); [reflexivity|contradiction].
Qed.

Lemma tally_filter_mapped m presence : forall t,
  foldl (tally_step (camera_to_zone m)) t (filter (fun p => mapped m p = true) presence)
    = foldl (tally_step (camera_to_zone m)) t presence.
Proof.
  induction presence as [|p presence IH]; intros t; [reflexivity|].
  rewrite filter_cons. destruct (mapped m p) eqn:E.
  - destruct (decide (true = true)); [|done]. cbn. apply IH.
  - destruct (decide (false = true)); [discriminate|]. cbn.
    rewrite (tally_step_unmapped m t p E). apply IH.
Qed.

(** X23. Records whose source is not a camera of a zone have no effect:
    the evaluation of a snapshot is the evaluation of its mapped records. *)
Theorem unmapped_records_ignored m presence now cache :
  evaluate_zone_compliance m presence now cache =
    evaluate_zone_compliance m (filter (fun p => mapped m p = true) presence) now cache.
Proof.
  unfold evaluate_zone_compliance, tally. by rewrite tally_filter_mapped.
Qed.

(** Before escalation the computed state is one of four. *)
Lemma compute_state_four rs reg ztype counts :
  (compute_state rs reg ztype counts).2 = COMPLIANT \/
  (compute_state rs reg ztype counts).2 = UNDERSTAFFED \/
  (compute_state rs reg ztype counts).2 = OVERSTAFFED \/
  (compute_state rs reg ztype counts).2 = UNAUTHORIZED_PERSON.
Proof.
  unfold compute_state.
  pose proof (ComplianceFacts.required_loop_state counts (required_roles reg)
    (flat_map (role_violations rs (forbidden_roles reg) ztype) (map fst counts), COMPLIANT))
    as Hloop.
  destruct (foldl _ _ _) as [violations st]. cbn in *.
  destruct violations; [by left|].
  destruct (existsb _ _); [by repeat right|].
  destruct Hloop as [-> | [-> | ->]]; auto.
Qed.

(** X27. A camera listed by several zones is attributed to the last of
    them in the policy document; a record from that camera counts for that
    zone only. *)
Theorem camera_last_zone_wins m before z after cam :
  zones m = before ++ z :: after ->
  cam ∈ camera_ids z ->
  (forall z', z' ∈ after -> cam ∉ camera_ids z') ->
  camera_to_zone m !! cam = Some (zone_id z).
Proof.
  intros Hz Hcam Hafter. unfold camera_to_zone. rewrite Hz, foldl_app. cbn [foldl].
  assert (forall (cams : list string) (zid : string) (acc : gmap string string),
            foldl (fun acc' c => <[c := zid]> acc') acc cams !! cam =
              if decide (cam ∈ cams) then Some zid else acc !! cam) as Hinner.
  { induction cams as [|c cams IH]; intros zid acc; cbn [foldl].
    - destruct (decide (cam ∈ [])) as [Hin|_]; [by apply elem_of_nil in Hin|reflexivity].
    - rewrite IH. destruct (decide (cam ∈ cams)) as [Hin|Hnin].
      + rewrite decide_True by (by apply list_elem_of_further). reflexivity.
      + destruct (decide (c = cam)) as [->|Hne].
        * rewrite decide_True by apply list_elem_of_here. by rewrite lookup_insert_eq.
        * rewrite decide_False by (rewrite elem_of_cons; intros [?|?]; congruence).
          by rewrite lookup_insert_ne. }
  assert (forall (zs : list Zone) (acc : gmap string string),
            (forall z', z' ∈ zs -> cam ∉ camera_ids z') ->
            foldl (fun acc0 z0 =>
                     foldl (fun acc' c => <[c := zone_id z0]> acc') acc0 (camera_ids z0))
              acc zs !! cam = acc !! cam) as Houter.
  { induction zs as [|z0 zs IH]; intros acc Hzs; cbn [foldl]; [reflexivity|].
    rewrite IH by (intros z' Hz'; apply Hzs; by apply list_elem_of_further).
    rewrite Hinner. rewrite decide_False; [reflexivity|].
    apply Hzs. apply list_elem_of_here. }
  rewrite Houter by exact Hafter. rewrite Hinner. by rewrite decide_True.
Qed.

Lemma camera_last_zone_wins_witness :
  camera_to_zone
    (mkModel [] [mkZone "hall" (Some "open") ["cam1"; "cam2"];
                 mkZone "vault" (Some "restricted") ["cam1"]] []) !! "cam1"
    = Some "vault".
Proof.
  apply (camera_last_zone_wins
           (mkModel [] [mkZone "hall" (Some "open") ["cam1"; "cam2"];
                        mkZone "vault" (Some "restricted") ["cam1"]] [])
           [mkZone "hall" (Some "open") ["cam1"; "cam2"]]
           (mkZone "vault" (Some "restricted") ["cam1"]) [] "cam1").
  - reflexivity.
  - apply list_elem_of_here.
  - intros z' Hz'. by apply elem_of_nil in Hz'.
Defined.

(** X28. A zone with a regulation is [INITIALIZING] exactly when it has no
    cache entry and no recent presence; as every evaluation leaves it a
    cache entry, it is never [INITIALIZING] on the evaluation after. *)
Theorem initializing_only_first m p1 p2 now1 now2 cache z reg :
  NoDup (zone_id <$> zones m) ->
  z ∈ zones m ->
  regulation_of m z = Some reg ->
  let r1 := evaluate_zone_compliance m p1 now1 cache in
  let r2 := evaluate_zone_compliance m p2 now2 (cache_of r1) in
  exists o1 o2,
    zone_entry (zones_of r1) (zone_id z) = Some o1 /\
    zone_entry (zones_of r2) (zone_id z) = Some o2 /\
    (out_state o1 = INITIALIZING <->
       cache !! zone_id z = None /\ recent_presence m p1 z = false) /\
    out_state o2 <> INITIALIZING.
Proof.
  intros Hnd Hin Hreg r1 r2.
  assert (forall presence now c,
            out_state (eval_zone (roles_by_id m) (regulations_by_type m)
                         (tally m presence) now c z).1 = INITIALIZING <->
            c !! zone_id z = None /\ recent_presence m presence z = false) as Hinit.
  { intros presence now c.
    destruct (recent_presence m presence z) eqn:Hrec.
    - destruct (ComplianceFacts.recent_presence_seen _ _ _ Hrec) as [seen_ts Hseen].
      rewrite (ComplianceFacts.eval_zone_presence _ _ _ _ _ _ reg seen_ts Hreg Hseen).
      cbn. split; [|by intros [_ ?]]. intros Hst. exfalso.
      set (cs := compute_state _ _ _ _) in Hst.
      destruct (ComplianceFacts.escalate_cases (violation_escalation_seconds reg) cs.2 now
                  (hysteresis_since (c !! zone_id z) cs.2 now)) as [He|He];
        rewrite He in Hst; [|discriminate].
      destruct (compute_state_four (roles_by_id m) reg (type z)
                  (default [] (zone_counts (tally m presence) !! zone_id z)))
        as [H4 | [H4 | [H4 | H4]]]; fold cs in H4; congruence.
    - rewrite (ComplianceFacts.eval_zone_no_presence _ _ _ _ _ _ reg Hreg
                 (ComplianceFacts.recent_presence_none _ _ _ Hrec)).
      cbn. destruct (c !! zone_id z); split; try done. by intros [? _]. }
  destruct (ComplianceFacts.evaluate_zone m p1 now1 cache z Hnd Hin) as [He1 Hc1].
  rewrite (ComplianceFacts.eval_zone_cached _ _ _ _ _ _ reg Hreg) in Hc1.
  destruct (ComplianceFacts.evaluate_zone m p2 now2 (cache_of r1) z Hnd Hin) as [He2 _].
  fold r1 in He1, Hc1. fold r2 in He2.
  eexists _, _. split; [exact He1|]. split; [exact He2|]. split; [apply Hinit|].
  intros Hst. apply Hinit in Hst as [Hnone _]. rewrite Hc1 in Hnone. discriminate.
Qed.

Lemma initializing_only_first_witness :
  let r1 := evaluate_zone_compliance demo_model [] 1000 ∅ in
  let r2 := evaluate_zone_compliance demo_model [] 2000 (cache_of r1) in
  exists o1 o2,
    zone_entry (zones_of r1) "vault" = Some o1 /\
    zone_entry (zones_of r2) "vault" = Some o2 /\
    (out_state o1 = INITIALIZING <->
       (∅ : gmap string ZoneState) !! "vault" = None /\
       recent_presence demo_model [] vault = false) /\
    out_state o2 <> INITIALIZING.
Proof.
  apply (initializing_only_first demo_model [] [] 1000 2000 ∅ vault demo_regulation).
  - apply ComplianceFacts.demo_zone_ids.
  - apply (bool_decide_unpack _). vm_compute. exact I.
  - vm_compute. reflexivity.
Defined.

(** On a snapshot ordered newest first, the value a zone ends up with is
    not more recent than any record of the zone. *)
Lemma last_seen_oldest m presence zid :
  StronglySorted (fun a b : Presence => last_seen_ts b <= last_seen_ts a) presence ->
  forall p t,
    p ∈ presence -> maps_to m zid p = true ->
    last_seen_of (tally m presence) zid = Some t ->
    t <= last_seen_ts p.
Proof.
  induction presence as [|q presence IH] using rev_ind; intros Hs p t Hp Hmap Hlast.
  { by apply elem_of_nil in Hp. }
  apply StronglySorted_app in Hs as (Hcross & Hs & _).
  unfold tally in Hlast. rewrite foldl_snoc in Hlast. fold (tally m presence) in Hlast.
  rewrite ComplianceFacts.tally_step_last_seen in Hlast.
  change (bool_decide (camera_to_zone m !! default "" (source_id q) = Some zid
                       ∧ zid ≠ "")) with (maps_to m zid q) in Hlast.
  apply elem_of_app in Hp as [Hp|Hp].
  - destruct (maps_to m zid q).
    + injection Hlast as <-. apply (Hcross p q Hp). by apply list_elem_of_singleton.
    + by apply (IH Hs p t).
  - apply list_elem_of_singleton in Hp as ->. rewrite Hmap in Hlast.
    injection Hlast as <-. lia.
Qed.

(** *** The engine on the rows of the presence query *)

Lemma role_of_row r : role_of (PresenceState.as_presence r) = "unknown".
Proof.
  unfold role_of, _role_from_payload. cbn.
  destruct (decide ((∅ : gmap string string) = ∅)); [reflexivity|done].
Qed.

(** With records that all count as ["unknown"], a zone has either no
    record at all or the single count of ["unknown"]. *)
Lemma tally_unknown_only m presence zid :
  Forall (fun p => role_of p = "unknown") presence ->
  (default [] (zone_counts (tally m presence) !! zid) = [] /\
   last_seen_of (tally m presence) zid = None) \/
  exists n, default [] (zone_counts (tally m presence) !! zid) = [("unknown", n)].
Proof.
  induction presence as [|p presence IH] using rev_ind; intros Hall.
  - left. split; [apply empty_tally_counts|apply ComplianceFacts.empty_tally_last_seen].
  - apply Forall_app in Hall as [Hall Hp]. apply Forall_cons in Hp as [Hp _].
    unfold tally. rewrite foldl_snoc. fold (tally m presence).
    rewrite tally_step_counts, ComplianceFacts.tally_step_last_seen, Hp.
    destruct (bool_decide _); [|by apply IH].
    right. destruct (IH Hall) as [[-> _]|[n ->]]; cbn; eauto.
Qed.

Lemma compute_state_unknown rs reg ztype n :
  rs !! "unknown" = None ->
  "unauthorized:unknown" ∈ (compute_state rs reg ztype [("unknown", n)]).1 /\
  (compute_state rs reg ztype [("unknown", n)]).2 = UNAUTHORIZED_PERSON.
Proof.
  intros Hrole. unfold compute_state.
  set (v0 := flat_map (role_violations rs (forbidden_roles reg) ztype)
               (map fst [("unknown", n)])).
  assert ("unauthorized:unknown" ∈ v0) as Hv0.
  { subst v0. cbn. rewrite app_nil_r. unfold role_violations. rewrite Hrole.
    apply elem_of_app. right.
    destruct (decide ("unknown" ≠ "unknown")) as [Hne|_]; [done|].
    destruct (decide ("unknown" = "unknown")); [|done].
    by apply list_elem_of_singleton. }
  clearbody v0.
  destruct (required_loop_extends [("unknown", n)] (required_roles reg) (v0, COMPLIANT))
    as [extra Hext].
  destruct (foldl _ _ _) as [violations st]. cbn in Hext. subst violations.
  assert ("unauthorized:unknown" ∈ v0 ++ extra) as Hin by (apply elem_of_app; by left).
  assert (existsb is_unauthorized (v0 ++ extra) = true) as ->.
  { apply existsb_exists. exists "unauthorized:unknown".
    split; [by apply list_elem_of_In|reflexivity]. }
  cbn. split; [exact Hin|].
  destruct (v0 ++ extra); [by apply elem_of_nil in Hin|reflexivity].
Qed.

(** X24. The rows of [get_current_presence] carry no payload, so the
    engine run on them sees every subject with the role ["unknown"]: unless
    the policy declares a role of that name, every zone with a regulation
    and recent presence is reported with the violation
    ["unauthorized:unknown"], as [UNAUTHORIZED_PERSON] or
    [CRITICAL_VIOLATION]. *)
Theorem query_rows_are_unknown m events now cache z reg :
  NoDup (zone_id <$> zones m) ->
  z ∈ zones m ->
  regulation_of m z = Some reg ->
  roles_by_id m !! "unknown" = None ->
  recent_presence m
    (PresenceState.as_presence <$> PresenceState.get_current_presence events) z = true ->
  exists o,
    zone_entry (zones_of (evaluate_on_events m events now cache)) (zone_id z) = Some o /\
    "unauthorized:unknown" ∈ out_violations o /\
    (out_state o = UNAUTHORIZED_PERSON \/ out_state o = CRITICAL_VIOLATION).
Proof.
  intros Hnd Hin Hreg Hrole Hrec. unfold evaluate_on_events.
  set (presence := PresenceState.as_presence <$> PresenceState.get_current_presence events)
    in *.
  assert (Forall (fun p => role_of p = "unknown") presence) as Hall.
  { subst presence. apply Forall_fmap, Forall_forall. intros r _. apply role_of_row. }
  destruct (ComplianceFacts.recent_presence_seen _ _ _ Hrec) as [seen_ts Hseen].
  destruct (ComplianceFacts.evaluate_zone m presence now cache z Hnd Hin) as [He _].
  rewrite (ComplianceFacts.eval_zone_presence _ _ _ _ _ _ reg seen_ts Hreg Hseen) in He.
  destruct (tally_unknown_only m presence (zone_id z) Hall) as [[_ Hnone]|[n Hn]];
    [congruence|].
  rewrite Hn in He.
  destruct (compute_state_unknown (roles_by_id m) reg (type z) n Hrole) as [Hv Hst].
  eexists. split; [exact He|]. cbn. split; [exact Hv|].
  rewrite Hst.
  destruct (ComplianceFacts.escalate_cases (violation_escalation_seconds reg)
              UNAUTHORIZED_PERSON now
              (hysteresis_since (cache !! zone_id z) UNAUTHORIZED_PERSON now)); auto.
Qed.

Lemma query_rows_are_unknown_witness :
  let events :=
    [PresenceState.mkPresenceEvent 900 "none" (Some "e-1") None (Some "cam1") "active" None] in
  exists o,
    zone_entry (zones_of (evaluate_on_events demo_model events 1000 ∅)) "vault" = Some o /\
    "unauthorized:unknown" ∈ out_violations o /\
    (out_state o = UNAUTHORIZED_PERSON \/ out_state o = CRITICAL_VIOLATION).
Proof.
  intros events.
  apply (query_rows_are_unknown demo_model events 1000 ∅ vault demo_regulation).
  - apply ComplianceFacts.demo_zone_ids.
  - apply (bool_decide_unpack _). vm_compute. exact I.
  - vm_compute. reflexivity.
  - vm_compute. reflexivity.
  - vm_compute. reflexivity.
Defined.

(** X29. On the rows of [get_current_presence], which come newest first,
    the last-seen time the engine keeps for a zone is the oldest among the
    rows of the zone: no row of the zone is older than it. *)
Theorem zone_last_seen_is_oldest m events zid p t :
  let presence :=
    PresenceState.as_presence <$> PresenceState.get_current_presence events in
  p ∈ presence ->
  maps_to m zid p = true ->
  last_seen_of (tally m presence) zid = Some t ->
  t <= last_seen_ts p.
Proof.
  intros presence. apply last_seen_oldest. subst presence.
  eapply StronglySorted_fmap; [|apply PresenceStateFacts.sorted_desc_sorted].
  intros a b Hab. exact Hab.
Qed.

Lemma zone_last_seen_is_oldest_witness :
  let events :=
    [PresenceState.mkPresenceEvent 200 "none" (Some "e-1") None (Some "cam1") "active" None;
     PresenceState.mkPresenceEvent 100 "none" (Some "e-2") None (Some "cam1") "idle" None] in
  100 <= last_seen_ts (mkPresence (Some "cam1") None 200).
Proof.
  intros events.
  apply (zone_last_seen_is_oldest demo_model events "vault"
           (mkPresence (Some "cam1") None 200) 100).
  - vm_compute. left.
  - vm_compute. reflexivity.
  - vm_compute. reflexivity.
Defined.

End ComplianceExtra.


(** * Properties of the callers in main.py *)

Module ApiFacts.

Import Compliance Api.
Local Open Scope Z_scope.

Lemma zone_detail_is_entry outs zid :
  compliance_zone_detail outs zid = zone_entry outs zid.
Proof.
  unfold compliance_zone_detail, zone_entry.
  induction outs as [|o outs IH]; [reflexivity|].
  rewrite filter_cons. cbn [find].
  destruct (decide (out_zone_id o = zid)) as [Heq|Hne].
  - by rewrite bool_decide_eq_true_2.
  - rewrite bool_decide_eq_false_2 by done. exact IH.
Qed.

Lemma zone_entry_none outs zid :
  zone_entry outs zid = None <-> zid ∉ out_zone_id <$> outs.
Proof.
  unfold zone_entry. induction outs as [|o outs IH].
  - split; [intros _; apply not_elem_of_nil|done].
  - rewrite fmap_cons, not_elem_of_cons. cbn [find].
    destruct (decide (out_zone_id o = zid)) as [Heq|Hne].
    + rewrite bool_decide_eq_true_2 by done. split; [discriminate|].
      intros [Hn _]. congruence.
    + rewrite bool_decide_eq_false_2 by done. rewrite IH.
      split; [intros ?; split; [congruence|done]|by intros [_ ?]].
Qed.

(** X25. The zone detail endpoint answers 404 exactly for an identifier
    that no zone of the policy has; otherwise it returns the first entry
    with that identifier. *)
Theorem zone_detail_not_found m presence now cache zid :
  let outs := zones_of (evaluate_zone_compliance m presence now cache) in
  (compliance_zone_detail outs zid = None <-> zid ∉ zone_id <$> zones m) /\
  compliance_zone_detail outs zid = zone_entry outs zid.
Proof.
  intros outs. split; [|apply zone_detail_is_entry].
  rewrite zone_detail_is_entry, zone_entry_none. subst outs.
  by rewrite ComplianceExtra.evaluate_out_ids.
Qed.

(** Whether an entry counts as a violation is decided by the snapshot, not
    by the cache. *)
Lemma violating_eval_zone m presence now cache z :
  violating (eval_zone (roles_by_id m) (regulations_by_type m)
               (tally m presence) now cache z).1
    = zone_violating m presence z.
Proof.
  unfold zone_violating, regulation_of.
  destruct (type z ≫= (regulations_by_type m !!.)) as [reg|] eqn:Hreg.
  - destruct (recent_presence m presence z) eqn:Hrec.
    + destruct (ComplianceFacts.recent_presence_seen _ _ _ Hrec) as [seen_ts Hseen].
      rewrite (ComplianceFacts.eval_zone_presence _ _ _ _ _ _ reg seen_ts Hreg Hseen).
      unfold violating. cbn.
      fold (pre_escalation_state m presence z reg).
      set (pre := pre_escalation_state m presence z reg).
      pose proof (ComplianceExtra.compute_state_four (roles_by_id m) reg (type z)
        (default [] (zone_counts (tally m presence) !! zone_id z))) as Hfour.
      fold (pre_escalation_state m presence z reg) in Hfour. fold pre in Hfour.
      destruct (ComplianceFacts.escalate_cases (violation_escalation_seconds reg) pre now
                  (hysteresis_since (cache !! zone_id z) pre now)) as [->|Hcrit].
      * destruct Hfour as [-> | [-> | [-> | ->]]]; reflexivity.
      * rewrite Hcrit.
        apply ComplianceFacts.escalate_critical in Hcrit;
          [|apply ComplianceFacts.compute_state_range].
        destruct Hcrit as [-> | [-> | ->]]; reflexivity.
    + rewrite (ComplianceFacts.eval_zone_no_presence _ _ _ _ _ _ reg Hreg
                 (ComplianceFacts.recent_presence_none _ _ _ Hrec)).
      unfold violating. cbn. destruct (cache !! zone_id z); reflexivity.
  - by rewrite ComplianceFacts.eval_zone_no_regulation.
Qed.

(** X26. The number of violations the chat reply reports depends on the
    snapshot only: it is the number of zones that have a regulation, recent
    presence and a computed state other than [COMPLIANT], whatever the
    cache holds and whatever the evaluation time. *)
Theorem chat_violations_count m presence now cache :
  length (chat_violations (zones_of (evaluate_zone_compliance m presence now cache)))
    = length (filter (fun z => zone_violating m presence z = true) (zones m)).
Proof.
  rewrite ComplianceFacts.evaluate_unfold.
  destruct (ComplianceExtra.eval_loop_entries (roles_by_id m) (regulations_by_type m)
              (tally m presence) now (zones m) ([], cache)) as (outs & Heq & Hall).
  cbn [fst app] in Heq. unfold zones_of, chat_violations. cbn [fst]. rewrite Heq.
  clear Heq. induction Hall as [|z o zs outs (c & ->) _ IH]; [reflexivity|].
  rewrite !filter_cons, violating_eval_zone.
  destruct (zone_violating m presence z).
  - destruct (decide (true = true)); [|done]. cbn. by rewrite IH.
  - destruct (decide (false = true)); [discriminate|]. exact IH.
Qed.

End ApiFacts.
